(** * PSR.py: a perfectly stirred combustor driven through a kinetics library

    The script wires reservoirs, flow controllers and a valve of an external
    chemical-kinetics library around one reactor, steps the reactor network
    to [tfinal] while writing a down-sampled trace to [combustor.csv], and
    reads the table back for plotting.

    What is embedded here is the script's own logic:
    - the igniter pulse [igniter_mdot] (PSR.py, lines 69-72);
    - the stepping loop with its write policy (lines 83-101);
    - the read-back of the table through a [csv.DictReader] (lines 107-121).

    Python floats are idealised: real numbers for the igniter profile (which
    needs [exp] and [ln]), exact rationals in the stepping loop (so that the
    loop computes). Where the idealisation decides a property, the igniter is
    also given as the program computes it, in binary64 over the three libm
    functions it calls ([Binary64]). The kinetics library is an interface
    ([Backend]); the csv module is taken at the level of records made of text
    cells. *)

From Stdlib Require Import QArith Qabs Lqa Reals Lra Lia Floats.
From stdpp Require Import base strings list gmap pretty.

(* ------------------------------------------------------------------ *)
(** ** The igniter pulse *)
(* ------------------------------------------------------------------ *)

Module Igniter.
Local Open Scope R_scope.

(** [fwhm = 0.2], [amplitude = 1.0], [t0 = 0.4] *)
Definition fwhm : R := 0.2.
Definition amplitude : R := 1.0.
Definition t0 : R := 0.4.

(** [igniter_mdot = lambda t: amplitude * math.exp(-(t-t0)**2 * 4 * math.log(2) / fwhm**2)]
    Python reads [-(t-t0)**2 * 4 * math.log(2) / fwhm**2] as
    [(((-((t-t0)**2)) * 4) * log 2) / (fwhm**2)]. *)
Definition igniter_mdot (t : R) : R :=
  amplitude * exp ((((- ((t - t0) ^ 2)) * 4) * ln 2) / (fwhm ^ 2)).

End Igniter.

(* ------------------------------------------------------------------ *)
(** ** The igniter pulse as the program computes it *)
(* ------------------------------------------------------------------ *)

Module Binary64.
Local Open Scope float_scope.

(** A Python float is an IEEE 754 binary64 number; subtraction, negation,
    multiplication and division are the correctly rounded ones. The lambda
    also calls three functions of the C library: [x**2] on floats is
    [pow(x, 2.0)], [math.log] is [log] and [math.exp] is [exp]. *)
Record Libm : Type := {
  pow : float -> float -> float;
  log : float -> float;
  exp : float -> float
}.

(** [fwhm = 0.2], [amplitude = 1.0], [t0 = 0.4], each literal read as the
    nearest binary64 number. *)
Definition fwhm : float := 0x1.999999999999ap-3.
Definition amplitude : float := 1.
Definition t0 : float := 0x1.999999999999ap-2.

(** [igniter_mdot = lambda t: amplitude * math.exp(-(t-t0)**2 * 4 * math.log(2) / fwhm**2)] *)
Definition igniter_mdot (m : Libm) (t : float) : float :=
  amplitude * exp m ((((- (pow m (t - t0) 2)) * 4) * log m 2) / (pow m fwhm 2)).

(** [x] is [y] or one of its two neighbours among the binary64 numbers. *)
Definition within_ulp (x y : float) : Prop :=
  x = next_down y \/ x = y \/ x = next_up y.

(** What is asked of the C library: a square and the logarithm of 2 that are
    less than one unit in the last place off, and an exponential that
    underflows to zero below -746 (the value there is under half the smallest
    positive binary64 number, which starts to be the case at about
    -745.13). *)
Record libm_ok (m : Libm) : Prop := {
  pow_square : forall x, within_ulp (pow m x 2) (x * x);
  log_two : within_ulp (log m 2) 0x1.62e42fefa39efp-1;
  exp_underflow : forall x, (x <=? -746) = true -> exp m x = 0
}.

(** A library that meets these demands and no others. *)
Definition coarse_libm : Libm :=
  {| pow := fun x _ => x * x;
     log := fun _ => 0x1.62e42fefa39efp-1;
     exp := fun x => if x <=? -746 then 0 else 1 |}.

End Binary64.

(* ------------------------------------------------------------------ *)
(** ** The feed rates (PSR.py, lines 53-59) *)
(* ------------------------------------------------------------------ *)

Module Feeds.
Local Open Scope Q_scope.

(** [equiv_ratio = 1.0] and [factor = 0.1] *)
Definition equiv_ratio : Q := 1.0.
Definition factor : Q := 0.1.

(** [air_mdot = factor * 7.52 * air_mw], with the mean molecular weight the
    library reports for the oxidizer stream. *)
Definition air_mdot (air_mw : Q) : Q := factor * 7.52 * air_mw.

(** [fuel_mdot = factor * equiv_ratio * fuel_mw] *)
Definition fuel_mdot (fuel_mw : Q) : Q := factor * equiv_ratio * fuel_mw.

End Feeds.

(* ------------------------------------------------------------------ *)
(** ** Python values, exceptions and results *)
(* ------------------------------------------------------------------ *)

(** What the script hands to [csvwriter.writerow]: strings and floats. *)
Inductive pyval : Type :=
  | PyStr (s : string)
  | PyFloat (x : Q).

(** The exceptions the embedded code can raise. *)
Inductive exn : Type :=
  | ZeroDivisionError
  | KeyError (key : string)
  | IndexError
  | TypeError.

(** Comparisons on floats, as booleans. *)
Definition Qltb (a b : Q) : bool := negb (Qle_bool b a).
Definition Qgtb (a b : Q) : bool := Qltb b a.

(* ------------------------------------------------------------------ *)
(** ** The kinetics library, as the script uses it *)
(* ------------------------------------------------------------------ *)

(** The reactor network and the objects hanging off it are library-owned.
    The script only calls [sim.step(tfinal)] and reads [combustor.T],
    [combustor.mass], [v.mdot(t)], [combustor.thermo.X] and
    [combustor.thermo.species_names]. [sim_state] is the library's whole
    mutable state; [sim_step] returns the state after one internal step
    together with the time it returns. *)
Record Backend : Type := {
  sim_state : Type;
  sim_step : sim_state -> Q -> sim_state * Q;
  combustor_T : sim_state -> Q;
  combustor_mass : sim_state -> Q;
  valve_mdot : sim_state -> Q -> Q;
  thermo_X : sim_state -> list Q;
  species_names : list string
}.

Arguments sim_step {_} _ _.
Arguments combustor_T {_} _.
Arguments combustor_mass {_} _.
Arguments valve_mdot {_} _ _.
Arguments thermo_X {_} _.

(* ------------------------------------------------------------------ *)
(** ** The stepping loop (PSR.py, lines 83-101) *)
(* ------------------------------------------------------------------ *)

Module Writer.
Local Open Scope Q_scope.

(** [tfinal = 6.0] *)
Definition tfinal : Q := 6.0.

(** [fieldnames = ['time','T','tres']+combustor.thermo.species_names] *)
Definition fieldnames (B : Backend) : list string :=
  ["time"; "T"; "tres"]%string ++ species_names B.

(** The script's variables during the loop. [outfile] holds the rows handed
    to [csvwriter.writerow] so far, oldest first. *)
Record Vars (B : Backend) : Type := {
  sim : sim_state B;
  tnow : Q;
  Tprev : Q;
  tprev : Q;
  outfile : list (list pyval)
}.

Arguments sim {_} _.
Arguments tnow {_} _.
Arguments Tprev {_} _.
Arguments tprev {_} _.
Arguments outfile {_} _.

(** [csvwriter.writerow(r)] appends one record to the file. *)
Definition writerow (f : list (list pyval)) (r : list pyval) : list (list pyval) :=
  f ++ [r].

(** Lines 83-90: the state when the loop is entered; the header is the only
    row written. *)
Definition init (B : Backend) (s0 : sim_state B) : Vars B :=
  {| sim := s0;
     tnow := 0.0;
     Tprev := combustor_T s0;
     tprev := 0.0;
     outfile := writerow [] (map PyStr (fieldnames B)) |}.

(** The test of line 97:
    [abs(Tnow - Tprev) > 1.0 or tnow-tprev > 2e-2]. *)
Definition write_test (Tnow Tprev tnow tprev : Q) : bool :=
  Qgtb (Qabs (Tnow - Tprev)) 1.0 || Qgtb (tnow - tprev) 2e-2.

(** [[tnow, combustor.T, tres] + list(combustor.thermo.X)] *)
Definition data_row {B : Backend} (s : sim_state B) (t tres : Q) : list pyval :=
  [PyFloat t; PyFloat (combustor_T s); PyFloat tres] ++ map PyFloat (thermo_X s).

(** One pass through the loop body either falls through to the next test of
    the loop condition or raises. *)
Inductive body_result (B : Backend) : Type :=
  | Next (v : Vars B)
  | Raise (e : exn) (v : Vars B).

Arguments Next {_} _.
Arguments Raise {_} _ _.

(** Lines 94-100. Float division by zero raises [ZeroDivisionError]; at that
    point [tnow] has been assigned and nothing else has. *)
Definition loop_body {B : Backend} (v : Vars B) : body_result B :=
  let '(s, t) := sim_step (sim v) tfinal in
  let mdot := valve_mdot s t in
  if Qeq_bool mdot 0 then
    Raise ZeroDivisionError
      {| sim := s; tnow := t; Tprev := Tprev v; tprev := tprev v;
         outfile := outfile v |}
  else
    let tres := combustor_mass s / mdot in
    let Tnow := combustor_T s in
    if write_test Tnow (Tprev v) t (tprev v) then
      Next {| sim := s; tnow := t; Tprev := Tnow; tprev := t;
              outfile := writerow (outfile v) (data_row s t tres) |}
    else
      Next {| sim := s; tnow := t; Tprev := Tprev v; tprev := tprev v;
              outfile := outfile v |}.

(** How the [while] statement ends: the condition became false, an exception
    escaped, or the allotted number of iterations ran out while the condition
    still held. *)
Inductive outcome (B : Backend) : Type :=
  | Finished (v : Vars B)
  | Raised (e : exn) (v : Vars B)
  | OutOfFuel (v : Vars B).

Arguments Finished {_} _.
Arguments Raised {_} _ _.
Arguments OutOfFuel {_} _.

(** [while tnow < tfinal: ...] *)
Fixpoint stepping_loop {B : Backend} (fuel : nat) (v : Vars B) : outcome B :=
  if Qltb (tnow v) tfinal then
    match fuel with
    | O => OutOfFuel v
    | S fuel' =>
        match loop_body v with
        | Next v' => stepping_loop fuel' v'
        | Raise e v' => Raised e v'
        end
    end
  else Finished v.

(** Lines 83-101 as a whole. *)
Definition write_phase (B : Backend) (fuel : nat) (s0 : sim_state B) : outcome B :=
  stepping_loop fuel (init B s0).

(** The state and time after [n] calls of [sim.step(tfinal)]. *)
Fixpoint sim_after {B : Backend} (n : nat) (s0 : sim_state B) : sim_state B * Q :=
  match n with
  | O => (s0, 0.0)
  | S n' => sim_step (fst (sim_after n' s0)) tfinal
  end.

Definition step_time {B : Backend} (s0 : sim_state B) (n : nat) : Q :=
  snd (sim_after n s0).

(** Reading a written row back as numbers. *)
Definition row_time (r : list pyval) : option Q :=
  match r with
  | PyFloat t :: _ => Some t
  | _ => None
  end.

(** The data rows of a table: all rows but the header. *)
Definition data_rows (f : list (list pyval)) : list (list pyval) := tail f.

End Writer.

(* ------------------------------------------------------------------ *)
(** ** Reading the table back (PSR.py, lines 107-121) *)
(* ------------------------------------------------------------------ *)

Module Reader.

(** The script opens the file in binary mode on both sides, as the csv module
    of Python 2 asks for. What the module does between records and bytes
    (separators, quoting, line ends) is its own business; here a file is the
    list of its records and a record the list of its cells' texts. The
    iteration protocol of [csv.DictReader] is followed step by step, because
    the script rewinds the file under a reader that it keeps using. *)

(** The csv module turns every cell into text when it writes: a string is
    written as it is, a float through the interpreter's [repr]. A record read
    back is the list of its cells' texts. *)
Definition cell_text (float_repr : Q -> string) (c : pyval) : string :=
  match c with
  | PyStr s => s
  | PyFloat x => float_repr x
  end.

Definition csv_text (float_repr : Q -> string) (f : list (list pyval))
  : list (list string) :=
  map (map (cell_text float_repr)) f.

(** The open file, the [csv.reader] over it and the [csv.DictReader] over
    that. [unread] is what lies past the file position. *)
Record State : Type := {
  contents : list (list string);
  unread : list (list string);
  reader_line_num : nat;
  dr_fieldnames : option (list string);
  dr_line_num : nat
}.

(** [open('combustor.csv','rb')] and [csv.DictReader(csvfile)] *)
Definition open_reader (f : list (list string)) : State :=
  {| contents := f; unread := f; reader_line_num := 0;
     dr_fieldnames := None; dr_line_num := 0 |}.

Inductive result (A : Type) : Type :=
  | Ok (a : A) (s : State)
  | Throw (e : exn)
  | Timeout.

Arguments Ok {_} _ _.
Arguments Throw {_} _.
Arguments Timeout {_}.

Definition M (A : Type) : Type := State -> result A.

Definition ret {A : Type} (a : A) : M A := fun s => Ok a s.

Definition bind {A B : Type} (c : M A) (k : A -> M B) : M B :=
  fun s =>
    match c s with
    | Ok a s' => k a s'
    | Throw e => Throw e
    | Timeout => Timeout
    end.

Definition raise {A : Type} (e : exn) : M A := fun _ => Throw e.

(** stdpp's notations [x ← c; k] and [c;; k] for this monad. *)
#[global] Instance M_ret : MRet M := @ret.
#[global] Instance M_bind : MBind M := fun A B k c => bind c k.

(** [csvfile.seek(0)] *)
Definition seek0 : M unit :=
  fun s => Ok tt {| contents := contents s; unread := contents s;
                    reader_line_num := reader_line_num s;
                    dr_fieldnames := dr_fieldnames s;
                    dr_line_num := dr_line_num s |}.

(** [self.reader.next()]: the next record, or [None] for [StopIteration]. *)
Definition reader_next : M (option (list string)) :=
  fun s =>
    match unread s with
    | [] => Ok None s
    | r :: rest =>
        Ok (Some r) {| contents := contents s; unread := rest;
                       reader_line_num := S (reader_line_num s);
                       dr_fieldnames := dr_fieldnames s;
                       dr_line_num := dr_line_num s |}
    end.

(** The [fieldnames] property of [DictReader]: the first record read becomes
    the field names, once; [line_num] is refreshed at every access. *)
Definition get_fieldnames : M (option (list string)) :=
  fun s =>
    let s1 :=
      match dr_fieldnames s with
      | Some _ => s
      | None =>
          match unread s with
          | [] => s
          | r :: rest =>
              {| contents := contents s; unread := rest;
                 reader_line_num := S (reader_line_num s);
                 dr_fieldnames := Some r;
                 dr_line_num := dr_line_num s |}
          end
      end in
    Ok (dr_fieldnames s1)
       {| contents := contents s1; unread := unread s1;
          reader_line_num := reader_line_num s1;
          dr_fieldnames := dr_fieldnames s1;
          dr_line_num := reader_line_num s1 |}.

(** [self.line_num = self.reader.line_num] *)
Definition sync_line_num : M unit :=
  fun s => Ok tt {| contents := contents s; unread := unread s;
                    reader_line_num := reader_line_num s;
                    dr_fieldnames := dr_fieldnames s;
                    dr_line_num := reader_line_num s |}.

(** [while row == []: row = self.reader.next()] *)
Fixpoint skip_blank (row : list string) (rest : list (list string)) (n : nat)
  : option (list string * list (list string) * nat) :=
  match row with
  | _ :: _ => Some (row, rest, n)
  | [] =>
      match rest with
      | [] => None
      | r :: rest' => skip_blank r rest' (S n)
      end
  end.

Definition skip_blanks (row : list string) : M (option (list string)) :=
  fun s =>
    match skip_blank row (unread s) (reader_line_num s) with
    | Some (row', rest, n) =>
        Ok (Some row') {| contents := contents s; unread := rest;
                          reader_line_num := n;
                          dr_fieldnames := dr_fieldnames s;
                          dr_line_num := dr_line_num s |}
    | None =>
        Ok None {| contents := contents s; unread := [];
                   reader_line_num := reader_line_num s + length (unread s);
                   dr_fieldnames := dr_fieldnames s;
                   dr_line_num := dr_line_num s |}
    end.

(** [d = dict(zip(self.fieldnames, row))], a later pair overriding an earlier
    one with the same key, then the keys the record is too short for set to
    [restval], which is [None]. A record longer than the field names also
    gets its tail stored under the key [None]; no string key reaches it, and
    it is left out here. *)
Definition make_dict (fn row : list string) : gmap string (option string) :=
  let d := foldl (fun d kv => <[kv.1 := Some kv.2]> d) ∅ (zip fn row) in
  foldl (fun d key => <[key := None]> d) d (drop (length row) fn).

(** [DictReader.next()]: [None] stands for [StopIteration]. *)
Definition dr_next : M (option (gmap string (option string))) :=
  fun s =>
    ((if Nat.eqb (dr_line_num s) 0 then get_fieldnames;; ret tt else ret tt);;
     r ← reader_next;
     match r with
     | None => ret None
     | Some row =>
         sync_line_num;;
         r' ← skip_blanks row;
         match r' with
         | None => ret None
         | Some row' =>
             fn ← get_fieldnames;
             match fn with
             | None => raise TypeError
             | Some fn => ret (Some (make_dict fn row'))
             end
         end
     end) s.

(** [[row[item] for row in data]], the iterations counted by [fuel]. *)
Fixpoint comprehension (fuel : nat) (item : string) : M (list (option string)) :=
  match fuel with
  | O => fun _ => Timeout
  | S fuel' =>
      d ← dr_next;
      match d with
      | None => ret []
      | Some d =>
          match d !! item with
          | None => raise (KeyError item)
          | Some x =>
              xs ← comprehension fuel' item;
              ret (x :: xs)
          end
      end
  end.

(** Every call of [next] that yields consumes a record, so one more
    iteration than there are unread records is always enough. *)
Definition listcomp (item : string) : M (list (option string)) :=
  fun s => comprehension (S (length (unread s))) item s.

(** [column.pop(0)], for what it does to the list. *)
Definition pop0 {A : Type} (l : list A) : M (list A) :=
  match l with
  | [] => raise IndexError
  | _ :: l' => ret l'
  end.

(** Lines 112-114 and 117-119: rewind, collect one column, drop its first
    element. *)
Definition reread (item : string) : M (list (option string)) :=
  seek0;;
  column1 ← listcomp item;
  pop0 column1.

(** [selectspecies=["OH","CH4","O2","CO2","H2O","CO"]] *)
Definition selectspecies : list string :=
  ["OH"; "CH4"; "O2"; "CO2"; "H2O"; "CO"]%string.

(** [for i,item in enumerate(selectspecies): ... selspeX.append(column1)] *)
Fixpoint for_species (items : list string) (selspeX : list (list (option string)))
  : M (list (list (option string))) :=
  match items with
  | [] => ret selspeX
  | item :: items' =>
      column1 ← reread item;
      for_species items' (selspeX ++ [column1])
  end.

(** The body of the [with] statement: [column0], [columnT] and [selspeX]. *)
Definition read_phase
  : M (list (option string) * list (option string) * list (list (option string))) :=
  column0 ← listcomp "time";
  columnT ← reread "T";
  selspeX ← for_species selectspecies [];
  ret (column0, columnT, selspeX).

(** The reader after at least one pass over the table [f]: the header has
    become the field names and has been counted. *)
Definition primed (f : list (list string)) (s : State) : Prop :=
  contents s = f /\ dr_fieldnames s = head f /\ dr_line_num s <> O.

End Reader.

(** The script up to the plots: the stepping loop, then the read-back of
    what it wrote. An exception in the loop ends the run. *)
Definition program (B : Backend) (float_repr : Q -> string) (fuel : nat)
  (s0 : sim_state B)
  : Reader.result (list (option string) * list (option string)
                   * list (list (option string))) :=
  match Writer.write_phase B fuel s0 with
  | Writer.Finished v =>
      Reader.read_phase
        (Reader.open_reader (Reader.csv_text float_repr (Writer.outfile v)))
  | Writer.Raised e _ => Reader.Throw e
  | Writer.OutOfFuel _ => Reader.Timeout
  end.

(* ------------------------------------------------------------------ *)
(** ** Auxiliary notions for stating properties of a run *)
(* ------------------------------------------------------------------ *)

Module Run.
Import Writer.
Local Open Scope Q_scope.

(** The variables as the loop leaves them, however it ends. *)
Definition final_vars {B : Backend} (o : outcome B) : Vars B :=
  match o with
  | Finished v => v
  | Raised _ v => v
  | OutOfFuel v => v
  end.

(** The variables after one pass through the loop body, however it ends. *)
Definition after_body {B : Backend} (r : body_result B) : Vars B :=
  match r with
  | Next v => v
  | Raise _ v => v
  end.

(** The library state after [n] steps, and what the script reads off it. *)
Definition state_at {B : Backend} (s0 : sim_state B) (n : nat) : sim_state B :=
  fst (sim_after n s0).

Definition T_at {B : Backend} (s0 : sim_state B) (n : nat) : Q :=
  combustor_T (state_at s0 n).

Definition mdot_at {B : Backend} (s0 : sim_state B) (n : nat) : Q :=
  valve_mdot (state_at s0 n) (step_time s0 n).

Definition tres_at {B : Backend} (s0 : sim_state B) (n : nat) : Q :=
  combustor_mass (state_at s0 n) / mdot_at s0 n.

(** The row the script writes for step [n], when it writes one. *)
Definition row_at {B : Backend} (s0 : sim_state B) (n : nat) : list pyval :=
  data_row (state_at s0 n) (step_time s0 n) (tres_at s0 n).

(** The time cell of the last row of a table, when that row is a data row. *)
Definition last_record_time (f : list (list pyval)) : option Q :=
  match last f with
  | Some r => row_time r
  | None => None
  end.

End Run.

(* ------------------------------------------------------------------ *)
(** ** Scripted backends, for running the model on concrete traces *)
(* ------------------------------------------------------------------ *)

Module Scripted.
Local Open Scope Q_scope.

(** What the script can observe of the library after a step. *)
Record Obs : Type := {
  o_t : Q;
  o_T : Q;
  o_mass : Q;
  o_mdot : Q;
  o_X : list Q
}.

(** A backend that replays a stream of observations; its state is the number
    of steps taken, and [obs 0] is the state the reactor is created in. *)
Definition backend (names : list string) (obs : nat -> Obs) : Backend :=
  {| sim_state := nat;
     sim_step := fun k _ => (S k, o_t (obs (S k)));
     combustor_T := fun k => o_T (obs k);
     combustor_mass := fun k => o_mass (obs k);
     valve_mdot := fun k _ => o_mdot (obs k);
     thermo_X := fun k => o_X (obs k);
     species_names := names |}.

(** A stream that follows a list and then stays at its last entry. *)
Definition replay (o0 : Obs) (script : list Obs) (k : nat) : Obs :=
  nth k (o0 :: script) (List.last script o0).

(** A stand-in for [repr] on floats: numerator, slash, denominator. *)
Definition show_Q (x : Q) : string :=
  (pretty (Qnum x) +:+ "/" +:+ pretty (Z.pos (Qden x)))%string.

Definition six : list string := ["OH"; "CH4"; "O2"; "CO2"; "H2O"; "CO"]%string.
Definition X6 : list Q := [0; 0.3; 0.6; 0; 0.1; 0].

Definition at_rest : Obs :=
  {| o_t := 0; o_T := 300; o_mass := 10; o_mdot := 2; o_X := X6 |}.

(** Three steps: an early one that writes, a late one that writes, and a last
    short one to [tfinal] that does not. *)
Definition trace_short_last : nat -> Obs :=
  replay at_rest
    [ {| o_t := 1; o_T := 300; o_mass := 10; o_mdot := 2; o_X := X6 |};
      {| o_t := 5.99; o_T := 2500; o_mass := 9; o_mdot := 3; o_X := X6 |};
      {| o_t := 6; o_T := 2500; o_mass := 9; o_mdot := 3; o_X := X6 |} ].

Definition B_short_last : Backend := backend six trace_short_last.

(** Two steps; the valve flow is zero after the second. *)
Definition trace_zero_flow : nat -> Obs :=
  replay at_rest
    [ {| o_t := 1; o_T := 300; o_mass := 10; o_mdot := 2; o_X := X6 |};
      {| o_t := 2; o_T := 300; o_mass := 10; o_mdot := 0; o_X := X6 |} ].

Definition B_zero_flow : Backend := backend six trace_zero_flow.

(** Steps of 1.5 s without end, at a constant state. *)
Definition trace_ramp (k : nat) : Obs :=
  {| o_t := (3 * Z.of_nat k) # 2; o_T := 300; o_mass := 10; o_mdot := 2;
     o_X := X6 |}.

Definition B_ramp : Backend := backend six trace_ramp.

(** The trace of [trace_short_last] for a mechanism of five species, which
    lacks [CO]. *)
Definition five : list string := ["OH"; "CH4"; "O2"; "CO2"; "H2O"]%string.
Definition X5 : list Q := [0; 0.3; 0.6; 0; 0.1].

Definition trace_five : nat -> Obs :=
  replay {| o_t := 0; o_T := 300; o_mass := 10; o_mdot := 2; o_X := X5 |}
    [ {| o_t := 1; o_T := 300; o_mass := 10; o_mdot := 2; o_X := X5 |};
      {| o_t := 5.99; o_T := 2500; o_mass := 9; o_mdot := 3; o_X := X5 |};
      {| o_t := 6; o_T := 2500; o_mass := 9; o_mdot := 3; o_X := X5 |} ].

Definition B_five : Backend := backend five trace_five.

(** The variables after the first pass through the loop body on
    [B_short_last], and the table a full run on it leaves. *)
Definition after_first_step : Writer.Vars B_short_last :=
  match Writer.loop_body (Writer.init B_short_last O) with
  | Writer.Next v => v
  | Writer.Raise _ v => v
  end.

(** The variables on [B_zero_flow] before the step that finds the valve
    closed. *)
Definition before_zero_flow : Writer.Vars B_zero_flow :=
  match Writer.loop_body (Writer.init B_zero_flow O) with
  | Writer.Next v => v
  | Writer.Raise _ v => v
  end.

Definition finished_short_last : Writer.Vars B_short_last :=
  Run.final_vars (Writer.write_phase B_short_last 3 O).

End Scripted.

(* ------------------------------------------------------------------ *)
(** ** Readings of the specification, as stated *)
(* ------------------------------------------------------------------ *)

Module Stated.
Import Writer Run.
Local Open Scope Q_scope.

(** "The run must terminate with the last written time >= 6.0": whenever the
    stepper's times reach [tfinal], the loop exits and the last record of the
    table has a time of at least [tfinal]. *)
Definition last_record_reaches_tfinal (B : Backend) (s0 : sim_state B) : Prop :=
  (exists n, tfinal <= step_time s0 n) ->
  exists fuel v,
    write_phase B fuel s0 = Finished v
    /\ tfinal <= tnow v
    /\ exists t, last_record_time (outfile v) = Some t /\ tfinal <= t.

(** "The first record corresponds to the state at simulated time 0": the
    trackers start at that state, and the first data row of the table is the
    row of that state. *)
Definition first_record_is_initial_state (B : Backend) (s0 : sim_state B) : Prop :=
  tprev (init B s0) = 0.0
  /\ Tprev (init B s0) = combustor_T s0
  /\ forall fuel r,
       data_rows (outfile (final_vars (write_phase B fuel s0))) !! 0%nat = Some r ->
       r = row_at s0 0.

(** "After every internal integration step a record is written and both
    trackers are reset if and only if the temperature or the time moved by
    more than its threshold", for the step taken from [v], whatever that
    step does. *)
Definition record_iff_test (B : Backend) (v : Vars B) : Prop :=
  let s := fst (sim_step (sim v) tfinal) in
  let t_now := snd (sim_step (sim v) tfinal) in
  let T_now := combustor_T s in
  let tres := combustor_mass s / valve_mdot s t_now in
  let record :=
    [PyFloat t_now; PyFloat T_now; PyFloat tres] ++ map PyFloat (thermo_X s) in
  let cond := Qabs (T_now - Tprev v) > 1.0 \/ t_now - tprev v > 2e-2 in
  let v' := after_body (loop_body v) in
  (cond <->
     outfile v' = outfile v ++ [record] /\ tprev v' = t_now /\ Tprev v' = T_now)
  /\ (~ cond ->
      outfile v' = outfile v /\ tprev v' = tprev v /\ Tprev v' = Tprev v).

(** "The igniter flow is positive at every time, never exactly zero", for the
    flow the program computes with the C library [m]. *)
Definition igniter_always_positive (m : Binary64.Libm) : Prop :=
  forall t : float,
    PrimFloat.is_finite t = true ->
    PrimFloat.ltb 0%float (Binary64.igniter_mdot m t) = true.

End Stated.

(* ================================================================== *)
(** * Properties *)
(* ================================================================== *)

(* ------------------------------------------------------------------ *)
(** ** The igniter pulse *)
(* ------------------------------------------------------------------ *)

Section IgniterProfile.
Import Igniter.
Local Open Scope R_scope.

Lemma exponent_at_offset (d : R) :
  (((- ((t0 + d - t0) ^ 2)) * 4) * ln 2) / (fwhm ^ 2) = - (100 * d ^ 2 * ln 2).
Proof.
  replace (t0 + d - t0) with d by lra.
  replace fwhm with (/ 5) by (unfold fwhm; lra). field.
Qed.

(** The pulse at distance [d] from its centre. *)
Lemma igniter_mdot_offset (d : R) :
  igniter_mdot (t0 + d) = exp (- (100 * d ^ 2 * ln 2)).
Proof. unfold igniter_mdot. rewrite exponent_at_offset. unfold amplitude. lra. Qed.

Lemma exp_nonpositive (x : R) : x <= 0 -> exp x <= 1 /\ (exp x = 1 -> x = 0).
Proof.
  intros Hx. destruct (Req_dec x 0) as [->|Hne].
  - rewrite exp_0. split; [lra | reflexivity].
  - assert (exp x < 1) by (rewrite <- exp_0; apply exp_increasing; lra).
    split; lra.
Qed.

(** C2. The igniter flow is the function
    [A * exp(-(t-t0)^2 * 4*ln 2 / W^2)] of the time alone, with [A = 1],
    [W = 0.2] and [t0 = 0.4]; it takes the value [A] at [t0], the value [A/2]
    at [t0 + W/2] and at [t0 - W/2], and the same value at [t0 + d] and
    [t0 - d]. *)
Theorem igniter_profile :
  amplitude = 1 /\ fwhm = 0.2 /\ t0 = 0.4
  /\ (forall t, igniter_mdot t
                = amplitude * exp (- (t - t0) ^ 2 * 4 * ln 2 / fwhm ^ 2))
  /\ igniter_mdot t0 = amplitude
  /\ igniter_mdot (t0 + fwhm / 2) = amplitude / 2
  /\ igniter_mdot (t0 - fwhm / 2) = amplitude / 2
  /\ (forall d, igniter_mdot (t0 + d) = igniter_mdot (t0 - d)).
Proof.
  assert (Hhalf : forall d, d ^ 2 = / 100 -> igniter_mdot (t0 + d) = amplitude / 2).
  { intros d Hd. rewrite igniter_mdot_offset.
    replace (100 * d ^ 2 * ln 2) with (ln 2) by (rewrite Hd; lra).
    rewrite exp_Ropp, exp_ln by lra. unfold amplitude. lra. }
  split; [unfold amplitude; lra|]. split; [reflexivity|]. split; [reflexivity|].
  split; [intros t; reflexivity|]. split; [|split; [|split]].
  - replace t0 with (t0 + 0) at 1 by lra. rewrite igniter_mdot_offset.
    replace (- (100 * 0 ^ 2 * ln 2)) with 0 by lra. rewrite exp_0.
    unfold amplitude. lra.
  - apply Hhalf. unfold fwhm. lra.
  - replace (t0 - fwhm / 2) with (t0 + - (fwhm / 2)) by lra.
    apply Hhalf. unfold fwhm. lra.
  - intros d. replace (t0 - d) with (t0 + - d) by lra.
    rewrite !igniter_mdot_offset. f_equal. lra.
Qed.

(** The real-valued pulse is positive and at most the amplitude at every
    time, equals the amplitude at [t0] only, and is never zero. *)
Lemma igniter_positive_bounded (t : R) :
  0 < igniter_mdot t <= amplitude
  /\ (igniter_mdot t = amplitude <-> t = t0)
  /\ igniter_mdot t <> 0.
Proof.
  replace t with (t0 + (t - t0)) by lra. rewrite igniter_mdot_offset.
  set (d := t - t0). replace amplitude with 1 by (unfold amplitude; lra).
  assert (Hln : 0 < ln 2) by (rewrite <- ln_1; apply ln_increasing; lra).
  assert (Hd : 0 <= d ^ 2) by (apply pow2_ge_0).
  assert (Hx : - (100 * d ^ 2 * ln 2) <= 0) by nra.
  destruct (exp_nonpositive _ Hx) as [Hle Heq].
  pose proof (exp_pos (- (100 * d ^ 2 * ln 2))) as Hpos.
  split; [split; [exact Hpos | exact Hle] |]. split; [|lra].
  split.
  - intros H. apply Heq in H.
    assert (d ^ 2 = 0) by nra.
    assert (d = 0) by nra. lra.
  - intros H. replace d with 0 by lra.
    replace (- (100 * 0 ^ 2 * ln 2)) with 0 by lra. apply exp_0.
Qed.

End IgniterProfile.

(* ------------------------------------------------------------------ *)
(** ** The igniter pulse in binary64 *)
(* ------------------------------------------------------------------ *)

Section IgniterBinary64.
Import Binary64.
Local Open Scope float_scope.

Lemma coarse_libm_ok : libm_ok coarse_libm.
Proof.
  split.
  - intros x. right. left. reflexivity.
  - right. left. reflexivity.
  - intros x Hx. cbn. by rewrite Hx.
Qed.

(** At a given time, go through what the C library may return for the two
    squares and the logarithm; in every case the exponent is below -746. *)
Ltac underflows m Hok t :=
  unfold igniter_mdot;
  destruct (pow_square m Hok (t - t0)) as [Hp|[Hp|Hp]];
  destruct (pow_square m Hok fwhm) as [Hq|[Hq|Hq]];
  destruct (log_two m Hok) as [Hl|[Hl|Hl]];
  rewrite Hp, Hq, Hl;
  (rewrite (exp_underflow m Hok) by (vm_compute; reflexivity));
  vm_compute; reflexivity.

Lemma igniter_off_at_4 (m : Libm) : libm_ok m -> igniter_mdot m 4 = 0.
Proof. intros Hok. underflows m Hok 4. Qed.

Lemma igniter_off_at_5 (m : Libm) : libm_ok m -> igniter_mdot m 5 = 0.
Proof. intros Hok. underflows m Hok 5. Qed.

Lemma igniter_off_at_6 (m : Libm) : libm_ok m -> igniter_mdot m 6 = 0.
Proof. intros Hok. underflows m Hok 6. Qed.

(** C9, as the code has it. For every real time the real-valued pulse is
    positive, at most the amplitude, equal to it at [t0] only, and never
    zero. The program computes the pulse in binary64, and there it is exactly
    zero at the times 4.0, 5.0 and 6.0 of the run, whichever of its admissible
    values the C library returns: the exponent has fallen below the point
    where [exp] underflows. *)
Theorem igniter_positive_in_reals_only (m : Libm) :
  libm_ok m ->
  (forall t : R,
     (0 < Igniter.igniter_mdot t <= Igniter.amplitude)%R
     /\ (Igniter.igniter_mdot t = Igniter.amplitude <-> t = Igniter.t0)
     /\ Igniter.igniter_mdot t <> 0%R)
  /\ igniter_mdot m 4 = 0
  /\ igniter_mdot m 5 = 0
  /\ igniter_mdot m 6 = 0.
Proof.
  intros Hok. split; [exact igniter_positive_bounded|].
  split; [by apply igniter_off_at_4|].
  split; [by apply igniter_off_at_5 | by apply igniter_off_at_6].
Qed.

Lemma igniter_positive_in_reals_only_witness :
  igniter_mdot coarse_libm 4 = 0
  /\ igniter_mdot coarse_libm 5 = 0
  /\ igniter_mdot coarse_libm 6 = 0.
Proof.
  apply (igniter_positive_in_reals_only coarse_libm). exact coarse_libm_ok.
Defined.

Lemma igniter_off_in_binary64 :
  ~ exists m, libm_ok m /\ Stated.igniter_always_positive m.
Proof.
  intros (m & Hok & Hpos). specialize (Hpos 6 eq_refl).
  rewrite (igniter_off_at_6 m Hok) in Hpos. discriminate.
Qed.

End IgniterBinary64.

(* ------------------------------------------------------------------ *)
(** ** Float comparisons *)
(* ------------------------------------------------------------------ *)

Section Comparisons.
Local Open Scope Q_scope.

Lemma Qltb_lt (a b : Q) : Qltb a b = true <-> a < b.
Proof.
  unfold Qltb. rewrite negb_true_iff, <- not_true_iff_false, Qle_bool_iff.
  split; [apply Qnot_le_lt | apply Qlt_not_le].
Qed.

Lemma Qltb_ge (a b : Q) : Qltb a b = false <-> b <= a.
Proof. unfold Qltb. rewrite negb_false_iff. apply Qle_bool_iff. Qed.

Lemma Qgtb_gt (a b : Q) : Qgtb a b = true <-> b < a.
Proof. apply Qltb_lt. Qed.

Lemma write_test_true (Tnow Tprev tnow tprev : Q) :
  Writer.write_test Tnow Tprev tnow tprev = true
  <-> 1.0 < Qabs (Tnow - Tprev) \/ 2e-2 < tnow - tprev.
Proof.
  unfold Writer.write_test. rewrite orb_true_iff, !Qgtb_gt. reflexivity.
Qed.

Lemma write_test_false (Tnow Tprev tnow tprev : Q) :
  Writer.write_test Tnow Tprev tnow tprev = false
  <-> Qabs (Tnow - Tprev) <= 1.0 /\ tnow - tprev <= 2e-2.
Proof.
  unfold Writer.write_test, Qgtb. rewrite orb_false_iff, !Qltb_ge. reflexivity.
Qed.

End Comparisons.

(* ------------------------------------------------------------------ *)
(** ** One pass through the loop body *)
(* ------------------------------------------------------------------ *)

Section LoopBody.
Import Writer.
Local Open Scope Q_scope.
Context {B : Backend}.

(** The loop body, case by case. *)
Lemma loop_body_cases (v : Vars B) :
  let s := fst (sim_step (sim v) tfinal) in
  let t := snd (sim_step (sim v) tfinal) in
  (valve_mdot s t == 0
   /\ loop_body v = Raise ZeroDivisionError
        {| sim := s; tnow := t; Tprev := Tprev v; tprev := tprev v;
           outfile := outfile v |})
  \/ (~ valve_mdot s t == 0
      /\ write_test (combustor_T s) (Tprev v) t (tprev v) = true
      /\ loop_body v = Next
           {| sim := s; tnow := t; Tprev := combustor_T s; tprev := t;
              outfile := outfile v ++
                [data_row s t (combustor_mass s / valve_mdot s t)] |})
  \/ (~ valve_mdot s t == 0
      /\ write_test (combustor_T s) (Tprev v) t (tprev v) = false
      /\ loop_body v = Next
           {| sim := s; tnow := t; Tprev := Tprev v; tprev := tprev v;
              outfile := outfile v |}).
Proof.
  unfold loop_body. destruct (sim_step (sim v) tfinal) as [s t]. cbn [fst snd].
  destruct (Qeq_bool (valve_mdot s t) 0) eqn:Hz.
  - left. split; [by apply Qeq_bool_iff | reflexivity].
  - apply Qeq_bool_neq in Hz.
    destruct (write_test _ _ _ _) eqn:Hw; [right; left | right; right]; done.
Qed.

Lemma app_singleton_neq {A : Type} (l : list A) (x : A) : l ++ [x] <> l.
Proof.
  intros H. apply (f_equal length) in H. rewrite length_app in H. simpl in H. lia.
Qed.

(** C1, as the loop has it. After a step at which the valve flow is not
    zero, so that the residence time can be computed, the loop body runs to
    its end; the record [[t_now, T_now, tres] + X] is appended and both
    trackers are set to [(t_now, T_now)] exactly when
    [|T_now - Tprev| > 1.0] or [t_now - tprev > 0.02]; otherwise the table and
    the trackers are as before. *)
Theorem write_policy (v : Vars B) :
  let s := fst (sim_step (sim v) tfinal) in
  let t_now := snd (sim_step (sim v) tfinal) in
  let T_now := combustor_T s in
  let tres := combustor_mass s / valve_mdot s t_now in
  let record :=
    [PyFloat t_now; PyFloat T_now; PyFloat tres] ++ map PyFloat (thermo_X s) in
  let cond := Qabs (T_now - Tprev v) > 1.0 \/ t_now - tprev v > 2e-2 in
  ~ valve_mdot s t_now == 0 ->
  exists v',
    loop_body v = Next v'
    /\ (cond <->
          outfile v' = outfile v ++ [record]
          /\ tprev v' = t_now /\ Tprev v' = T_now)
    /\ (~ cond ->
          outfile v' = outfile v /\ tprev v' = tprev v /\ Tprev v' = Tprev v)
    /\ tnow v' = t_now.
Proof.
  cbv zeta. intros Hflow.
  destruct (loop_body_cases v) as [[Hz _]|[(_ & Hw & H)|(_ & Hw & H)]];
    [done | |]; eexists; (split; [exact H|]); cbn.
  - apply write_test_true in Hw. tauto.
  - assert (Hn : ~ (1.0 < Qabs (combustor_T (sim_step (sim v) tfinal).1 - Tprev v)
                    \/ 2e-2 < (sim_step (sim v) tfinal).2 - tprev v)).
    { rewrite <- write_test_true, Hw. discriminate. }
    split; [|tauto]. split; [tauto|].
    intros [Ho _]. symmetry in Ho. by apply app_singleton_neq in Ho.
Qed.

End LoopBody.

(* ------------------------------------------------------------------ *)
(** ** The loop as a whole *)
(* ------------------------------------------------------------------ *)

Section Loop.
Import Writer Run.
Local Open Scope Q_scope.
Context {B : Backend}.

Lemma raise_keeps_outfile (v v' : Vars B) (e : exn) :
  loop_body v = Raise e v' -> outfile v' = outfile v /\ e = ZeroDivisionError.
Proof.
  intros Hb.
  destruct (loop_body_cases v) as [[_ H]|[(_ & _ & H)|(_ & _ & H)]];
    rewrite H in Hb; [|discriminate..].
  by injection Hb as <- <-.
Qed.

Lemma next_advances (s0 : sim_state B) (k : nat) (v v' : Vars B) :
  sim v = state_at s0 k -> loop_body v = Next v' ->
  sim v' = state_at s0 (S k) /\ tnow v' = step_time s0 (S k).
Proof.
  intros Hs Hb. unfold state_at, step_time in *. cbn [sim_after]. rewrite <- Hs.
  destruct (loop_body_cases v) as [[_ H]|[(_ & _ & H)|(_ & _ & H)]];
    rewrite H in Hb; [discriminate | |]; by injection Hb as <-.
Qed.

(** An invariant of the loop body, indexed by the number of steps taken,
    gives a property of the table however the loop ends. *)
Lemma stepping_loop_invariant
    (P : nat -> Vars B -> Prop) (F : list (list pyval) -> Prop) :
  (forall k v v', P k v -> Qltb (tnow v) tfinal = true ->
                  loop_body v = Next v' -> P (S k) v') ->
  (forall k v, P k v -> F (outfile v)) ->
  forall fuel k v, P k v -> F (outfile (final_vars (stepping_loop fuel v))).
Proof.
  intros Hstep Hfin fuel. induction fuel as [|fuel IH]; intros k v HP; cbn.
  - destruct (Qltb (tnow v) tfinal); cbn; eauto.
  - destruct (Qltb (tnow v) tfinal) eqn:Hc; cbn; [|eauto].
    destruct (loop_body v) as [v'|e v'] eqn:Hb; [eauto|].
    cbn. apply raise_keeps_outfile in Hb as [-> _]. eauto.
Qed.

(** More iterations do not change a run that has ended. *)
Lemma stepping_loop_more_fuel (fuel extra : nat) (v : Vars B) :
  (forall w, stepping_loop fuel v <> OutOfFuel w) ->
  stepping_loop (fuel + extra) v = stepping_loop fuel v.
Proof.
  revert v. induction fuel as [|fuel IH]; intros v Hne.
  - cbn in Hne. destruct extra; cbn; destruct (Qltb (tnow v) tfinal); try done.
    by destruct (Hne v).
  - cbn in *. destruct (Qltb (tnow v) tfinal); [|done].
    destruct (loop_body v); [by apply IH | done].
Qed.

(** The loop runs through the steps that stay below [tfinal], as long as
    no division fails, and carries along any invariant of the loop body. *)
Lemma stepping_loop_runs (s0 : sim_state B) (P : nat -> Vars B -> Prop) (n : nat) :
  P O (init B s0) ->
  (forall k v v', P k v -> sim v = state_at s0 k -> tnow v = step_time s0 k ->
                  loop_body v = Next v' -> P (S k) v') ->
  (forall k, (k < n)%nat -> step_time s0 k < tfinal) ->
  (forall k, (1 <= k <= n)%nat -> ~ mdot_at s0 k == 0) ->
  forall fuel, exists v,
    stepping_loop (n + fuel) (init B s0) = stepping_loop fuel v
    /\ sim v = state_at s0 n /\ tnow v = step_time s0 n /\ P n v.
Proof.
  intros H0 Hstep. induction n as [|n IH]; intros Hlt Hflow fuel.
  - by exists (init B s0).
  - destruct (IH (fun k Hk => Hlt k (Nat.lt_lt_succ_r _ _ Hk))
                 (fun k Hk => Hflow k (conj (proj1 Hk) (Nat.le_le_succ_r _ _ (proj2 Hk))))
                 (S fuel)) as (v & Hrun & Hs & Ht & HP).
    replace (S n + fuel)%nat with (n + S fuel)%nat by lia. rewrite Hrun.
    cbn [stepping_loop].
    assert (Hc : Qltb (tnow v) tfinal = true).
    { apply Qltb_lt. rewrite Ht. apply Hlt. lia. }
    rewrite Hc.
    destruct (loop_body_cases v) as [[Hz _]|[(_ & _ & H)|(_ & _ & H)]].
    + exfalso. apply (Hflow (S n)); [lia|].
      unfold mdot_at, state_at, step_time in *. cbn [sim_after]. by rewrite <- Hs.
    + rewrite H. eexists. split; [reflexivity|].
      destruct (next_advances s0 n v _ Hs H) as [? ?]. eauto.
    + rewrite H. eexists. split; [reflexivity|].
      destruct (next_advances s0 n v _ Hs H) as [? ?]. eauto.
Qed.

(** The first step at which a threshold is reached. *)
Lemma below_or_first (f : nat -> Q) (c : Q) (n : nat) :
  (forall k, (k < n)%nat -> f k < c)
  \/ exists m, (m < n)%nat /\ c <= f m /\ forall k, (k < m)%nat -> f k < c.
Proof.
  induction n as [|n [IH|(m & ? & ? & ?)]].
  - left. intros k Hk. lia.
  - destruct (Qlt_le_dec (f n) c) as [Hlt|Hge].
    + left. intros k Hk. destruct (decide (k = n)) as [->|]; [done | apply IH; lia].
    + right. exists n. split; [lia | done].
  - right. exists m. split; [lia | done].
Qed.

Lemma first_reaching (f : nat -> Q) (c : Q) (n : nat) :
  c <= f n ->
  exists m, (m <= n)%nat /\ c <= f m /\ forall k, (k < m)%nat -> f k < c.
Proof.
  intros Hn. destruct (below_or_first f c n) as [H|(m & ? & ? & ?)].
  - exists n. split; [lia | done].
  - exists m. split; [lia | done].
Qed.

End Loop.

(* ------------------------------------------------------------------ *)
(** ** The shape of the table *)
(* ------------------------------------------------------------------ *)

Section Table.
Import Writer Run.
Local Open Scope Q_scope.
Context {B : Backend}.

Lemma length_data_row (s : sim_state B) (t tres : Q) :
  length (data_row s t tres) = (3 + length (thermo_X s))%nat.
Proof. unfold data_row. by rewrite length_app, length_map. Qed.

(** Whatever a step does, the table keeps its rows and gains at most the
    row of that step. *)
Lemma next_outfile (s0 : sim_state B) (k : nat) (v v' : Vars B) :
  sim v = state_at s0 k -> loop_body v = Next v' ->
  (outfile v' = outfile v ++ [row_at s0 (S k)]
   /\ tprev v' = step_time s0 (S k) /\ Tprev v' = T_at s0 (S k)
   /\ write_test (T_at s0 (S k)) (Tprev v) (step_time s0 (S k)) (tprev v) = true)
  \/ (outfile v' = outfile v /\ tprev v' = tprev v /\ Tprev v' = Tprev v
      /\ write_test (T_at s0 (S k)) (Tprev v) (step_time s0 (S k)) (tprev v) = false).
Proof.
  intros Hs Hb.
  unfold row_at, tres_at, mdot_at, T_at, state_at, step_time in *.
  cbn [sim_after]. rewrite <- Hs.
  destruct (loop_body_cases v) as [[_ H]|[(_ & Hw & H)|(_ & Hw & H)]];
    rewrite H in Hb; [discriminate | |]; injection Hb as <-; cbn; [left | right];
    done.
Qed.

(** C4. The first row of the table is the header [time, T, tres] followed by
    the species names in the mechanism's order, and every later row has as
    many cells as the header, [3 + N], given that the library's mole-fraction
    vector has one entry per species. *)
Theorem table_shape
    (HX : forall s : sim_state B, length (thermo_X s) = length (species_names B))
    (fuel : nat) (s0 : sim_state B) :
  exists rows,
    outfile (final_vars (write_phase B fuel s0))
      = map PyStr (["time"; "T"; "tres"]%string ++ species_names B) :: rows
    /\ length (map PyStr (["time"; "T"; "tres"]%string ++ species_names B))
         = (3 + length (species_names B))%nat
    /\ Forall (fun r => length r = (3 + length (species_names B))%nat) rows.
Proof.
  unfold write_phase.
  apply (stepping_loop_invariant
           (fun k v => sim v = state_at s0 k /\
              exists rows, outfile v = map PyStr (fieldnames B) :: rows
                /\ Forall (fun r => length r = (3 + length (species_names B))%nat) rows)
           (fun f => exists rows, f = map PyStr (fieldnames B) :: rows
                /\ length (map PyStr (fieldnames B)) = (3 + length (species_names B))%nat
                /\ Forall (fun r => length r = (3 + length (species_names B))%nat) rows))
    with (k := O).
  - intros k v v' (Hs & rows & Hf & Hall) _ Hb.
    split; [by eapply next_advances|].
    destruct (next_outfile s0 k v v' Hs Hb) as [(-> & _)|(-> & _)].
    + exists (rows ++ [row_at s0 (S k)]). rewrite Hf. split; [done|].
      apply Forall_app. split; [done|]. apply Forall_singleton.
      unfold row_at. by rewrite length_data_row, HX.
    + eauto.
  - intros k v (_ & rows & Hf & Hall). exists rows. split; [done|]. split; [|done].
    unfold fieldnames. by rewrite length_map, length_app.
  - split; [done|]. exists []. by split.
Qed.

End Table.

(* ------------------------------------------------------------------ *)
(** ** The order of the written times *)
(* ------------------------------------------------------------------ *)

Section Order.
Import Writer Run.
Local Open Scope Q_scope.
Context {B : Backend}.

Lemma ascending_snoc (rows : list (list pyval)) (r : list pyval) (t : Q) :
  (forall i r1 r2, rows !! i = Some r1 -> rows !! S i = Some r2 ->
     exists t1 t2, row_time r1 = Some t1 /\ row_time r2 = Some t2 /\ t1 < t2) ->
  row_time r = Some t ->
  (forall r', last rows = Some r' -> exists t', row_time r' = Some t' /\ t' < t) ->
  forall i r1 r2, (rows ++ [r]) !! i = Some r1 -> (rows ++ [r]) !! S i = Some r2 ->
     exists t1 t2, row_time r1 = Some t1 /\ row_time r2 = Some t2 /\ t1 < t2.
Proof.
  intros Hasc Hr Hlast i r1 r2 H1 H2.
  destruct (decide (S i < length rows)%nat) as [Hlt|Hge].
  - rewrite lookup_app_l in H1 by lia. rewrite lookup_app_l in H2 by lia. eauto.
  - assert (Hi : S i = length rows).
    { apply lookup_lt_Some in H2. rewrite length_app in H2. simpl in H2. lia. }
    rewrite lookup_app_l in H1 by lia.
    rewrite lookup_app_r, Hi, Nat.sub_diag in H2 by lia. injection H2 as <-.
    destruct (Hlast r1) as (t1 & ? & ?).
    { rewrite last_lookup, <- Hi. exact H1. }
    eauto.
Qed.

(** C7. When the times the stepper returns increase strictly, every data row
    of the table has a time strictly above that of the row before it. *)
Theorem written_times_ascend (s0 : sim_state B)
    (Hinc : forall k, (1 <= k)%nat -> step_time s0 k < step_time s0 (S k))
    (fuel : nat) (i : nat) (r1 r2 : list pyval) :
  data_rows (outfile (final_vars (write_phase B fuel s0))) !! i = Some r1 ->
  data_rows (outfile (final_vars (write_phase B fuel s0))) !! S i = Some r2 ->
  exists t1 t2, row_time r1 = Some t1 /\ row_time r2 = Some t2 /\ t1 < t2.
Proof.
  revert i r1 r2. unfold write_phase.
  apply (stepping_loop_invariant
    (fun k v => sim v = state_at s0 k /\ tnow v = step_time s0 k /\
       exists rows, outfile v = map PyStr (fieldnames B) :: rows
         /\ (forall i r1 r2, rows !! i = Some r1 -> rows !! S i = Some r2 ->
               exists t1 t2, row_time r1 = Some t1 /\ row_time r2 = Some t2 /\ t1 < t2)
         /\ (forall r, last rows = Some r ->
               exists t, row_time r = Some t /\ t <= tnow v /\ (1 <= k)%nat))
    (fun f => forall i r1 r2, data_rows f !! i = Some r1 -> data_rows f !! S i = Some r2 ->
               exists t1 t2, row_time r1 = Some t1 /\ row_time r2 = Some t2 /\ t1 < t2))
    with (k := O).
  - intros k v v' (Hs & Ht & rows & Hf & Hasc & Hlast) _ Hb.
    destruct (next_advances s0 k v v' Hs Hb) as [Hs' Ht'].
    split; [done|]. split; [done|].
    destruct (next_outfile s0 k v v' Hs Hb) as [(Ho & _)|(Ho & _)]; rewrite Ho, Hf.
    + exists (rows ++ [row_at s0 (S k)]). split; [done|]. split.
      * apply (ascending_snoc rows _ (step_time s0 (S k))); [done | done |].
        intros r' Hr'. destruct (Hlast r' Hr') as (t' & ? & Hle & Hk).
        exists t'. split; [done|]. rewrite Ht in Hle.
        eapply Qle_lt_trans; [exact Hle | by apply Hinc].
      * intros r. rewrite last_snoc. intros [= <-].
        exists (step_time s0 (S k)). rewrite Ht'. split; [done|].
        split; [apply Qle_refl | lia].
    + exists rows. split; [done|]. split; [done|].
      intros r Hr. destruct (Hlast r Hr) as (t & ? & Hle & Hk).
      exists t. split; [done|]. split; [|lia]. rewrite Ht', Ht in *.
      apply Qlt_le_weak. eapply Qle_lt_trans; [exact Hle | by apply Hinc].
  - intros k v (_ & _ & rows & Hf & Hasc & _). by rewrite Hf.
  - split; [done|]. split; [done|]. exists []. split; [done|]. split; [|done].
    intros i r1 r2 H. by rewrite lookup_nil in H.
Qed.

End Order.

(* ------------------------------------------------------------------ *)
(** ** How the run ends *)
(* ------------------------------------------------------------------ *)

Section Ending.
Import Writer Run.
Local Open Scope Q_scope.
Context {B : Backend}.

Lemma last_record_time_cons (h : list pyval) (rows : list (list pyval)) (r : list pyval) :
  last rows = Some r -> last_record_time (h :: rows) = row_time r.
Proof.
  intros Hr. unfold last_record_time.
  destruct rows as [|r0 rows]; [done|]. by rewrite last_cons_cons, Hr.
Qed.

(** C3, as the loop has it. When the stepper's times reach [tfinal] and no
    residence-time division fails on the way, the loop exits at the first
    step whose time is at least [tfinal]; the last record of the table then
    has the time of the last write, which lies at most [0.02] before the time
    of that step, and which is at least [tfinal] exactly when it is the time
    of that step. *)
Theorem loop_exit (s0 : sim_state B) (n : nat) :
  tfinal <= step_time s0 n ->
  (forall k, (1 <= k <= n)%nat -> ~ mdot_at s0 k == 0) ->
  exists m v,
    (m <= n)%nat
    /\ (forall k, (k < m)%nat -> step_time s0 k < tfinal)
    /\ (forall fuel, (m <= fuel)%nat -> write_phase B fuel s0 = Finished v)
    /\ tnow v = step_time s0 m
    /\ tfinal <= tnow v
    /\ exists t, last_record_time (outfile v) = Some t
                 /\ t = tprev v
                 /\ tnow v - 2e-2 <= t
                 /\ (tfinal <= t <-> t = tnow v).
Proof.
  intros Hn Hflow.
  destruct (first_reaching (step_time s0) tfinal n Hn) as (m & Hmn & Hm & Hbelow).
  destruct (stepping_loop_runs s0
    (fun k v => exists rows, outfile v = map PyStr (fieldnames B) :: rows
       /\ ((rows = [] /\ tprev v = 0.0)
           \/ exists r, last rows = Some r /\ row_time r = Some (tprev v))
       /\ ((1 <= k)%nat -> tnow v - tprev v <= 2e-2)
       /\ exists k', (k' <= k)%nat /\ tprev v = step_time s0 k')
    m) with (fuel := O)
    as (v & Hrun & Hs & Ht & rows & Hf & Hrows & Hgap & k' & Hk' & Hwritten).
  - exists []. split; [done|]. split; [by left|]. split; [lia|]. by exists O.
  - intros k v v' (rows & Hf & Hrows & _ & k' & Hk' & Hwritten) Hs Ht Hb.
    destruct (next_advances s0 k v v' Hs Hb) as [_ Ht'].
    destruct (next_outfile s0 k v v' Hs Hb)
      as [(Ho & Htp & _)|(Ho & Htp & _ & Hw)]; rewrite Ho, Hf, Htp, Ht'.
    + exists (rows ++ [row_at s0 (S k)]). split; [done|]. split; [|split].
      * right. exists (row_at s0 (S k)). by rewrite last_snoc.
      * intros _. unfold Qminus. rewrite Qplus_opp_r. done.
      * by exists (S k).
    + exists rows. split; [done|]. split; [done|]. split.
      * intros _. by apply write_test_false in Hw as [_ Hw].
      * exists k'. split; [lia | done].
  - done.
  - intros k Hk. apply Hflow. lia.
  - assert (Hc : Qltb (tnow v) tfinal = false) by (apply Qltb_ge; by rewrite Ht).
    assert (Hfin : stepping_loop 0 v = Finished v) by (cbn; by rewrite Hc).
    assert (Hm1 : (1 <= m)%nat).
    { destruct m; [|lia]. exfalso. revert Hm. by apply Qlt_not_le. }
    exists m, v. split; [done|]. split; [done|]. split; [|split; [done|]].
    { intros fuel Hfuel. unfold write_phase.
      replace fuel with ((m + 0) + (fuel - m))%nat by lia.
      rewrite stepping_loop_more_fuel; [by rewrite Hrun|].
      intros w. by rewrite Hrun, Hfin. }
    split; [by rewrite Ht|].
    specialize (Hgap Hm1).
    assert (Hgap' : tnow v - 2e-2 <= tprev v).
    { revert Hgap. generalize 2e-2 (tnow v) (tprev v). intros c a b H. Lqa.lra. }
    destruct Hrows as [[-> H0]|(r & Hr & Hrt)].
    + exfalso. rewrite H0, Ht in Hgap'.
      apply (Qlt_not_le 0.0 (step_time s0 m - 2e-2)); [|done].
      apply Qlt_le_trans with (y := tfinal - 2e-2); [done|].
      unfold Qminus. by apply Qplus_le_l.
    + exists (tprev v). rewrite Hf, (last_record_time_cons _ _ r) by done.
      split; [done|]. split; [done|]. split; [done|]. rewrite Ht. split.
      * intros Hge. destruct (decide (k' = m)) as [->|Hne]; [done|].
        exfalso. apply (Qlt_not_le (step_time s0 k') tfinal); [|by rewrite <- Hwritten].
        apply Hbelow. lia.
      * intros Heq. by rewrite Heq.
Qed.

(** C6. When the valve flow at the time of a step is zero, the division of
    line 95 raises, nothing catches it, and the table and the trackers are as
    they were before the step; the run stops there without reading anything
    back. Otherwise the division gives the quotient of the reactor mass by the
    valve flow and the step runs to its end: when the write test holds the
    row appended carries that quotient as its residence time, and when it
    does not the table is unchanged. *)
Theorem residence_time_division (v : Vars B) :
  let s := fst (sim_step (sim v) tfinal) in
  let t_now := snd (sim_step (sim v) tfinal) in
  let T_now := combustor_T s in
  let tres := combustor_mass s / valve_mdot s t_now in
  let cond := Qabs (T_now - Tprev v) > 1.0 \/ t_now - tprev v > 2e-2 in
  (valve_mdot s t_now == 0 ->
     exists v', loop_body v = Raise ZeroDivisionError v'
       /\ outfile v' = outfile v
       /\ tprev v' = tprev v /\ Tprev v' = Tprev v
       /\ (tnow v < tfinal ->
           forall fuel, stepping_loop (S fuel) v = Raised ZeroDivisionError v'))
  /\ (~ valve_mdot s t_now == 0 ->
     exists v', loop_body v = Next v'
       /\ (cond ->
           outfile v' = outfile v ++
             [[PyFloat t_now; PyFloat T_now; PyFloat tres]
              ++ map PyFloat (thermo_X s)])
       /\ (~ cond -> outfile v' = outfile v))
  /\ (forall float_repr fuel s0 e w,
        write_phase B fuel s0 = Raised e w ->
        program B float_repr fuel s0 = Reader.Throw e).
Proof.
  cbv zeta. split; [|split].
  - intros Hz.
    destruct (loop_body_cases v) as [[_ H]|[(Hnz & _)|(Hnz & _)]];
      [|by destruct Hnz..].
    eexists. split; [exact H|]. split; [done|]. split; [done|]. split; [done|].
    intros Hc fuel. cbn. apply Qltb_lt in Hc. by rewrite Hc, H.
  - intros Hnz.
    destruct (loop_body_cases v) as [[Hz _]|[(_ & Hw & H)|(_ & Hw & H)]];
      [by destruct Hnz | |]; eexists; (split; [exact H|]); cbn.
    + split; [done|]. intros Hn. exfalso. apply Hn. by apply write_test_true.
    + split; [|done]. intros Hc. apply write_test_true in Hc.
      rewrite Hw in Hc. discriminate.
  - intros float_repr fuel s0 e w Hw. unfold program. by rewrite Hw.
Qed.

(** C5, as the loop has it. The trackers start at time 0 and at the
    temperature of the reactor as created, and no row is written for that
    state. The first data row of the table is the row of the first step that
    passes the write test against these starting values. *)
Theorem first_record (s0 : sim_state B) :
  tprev (init B s0) = 0.0
  /\ Tprev (init B s0) = combustor_T s0
  /\ data_rows (outfile (init B s0)) = []
  /\ forall fuel r,
       data_rows (outfile (final_vars (write_phase B fuel s0))) !! 0%nat = Some r ->
       exists k, (1 <= k)%nat
         /\ r = row_at s0 k
         /\ write_test (T_at s0 k) (combustor_T s0) (step_time s0 k) 0.0 = true
         /\ forall j, (1 <= j < k)%nat ->
              write_test (T_at s0 j) (combustor_T s0) (step_time s0 j) 0.0 = false.
Proof.
  split; [done|]. split; [done|]. split; [done|]. intros fuel. unfold write_phase.
  set (first := fun r : list pyval => exists k, (1 <= k)%nat
         /\ r = row_at s0 k
         /\ write_test (T_at s0 k) (combustor_T s0) (step_time s0 k) 0.0 = true
         /\ forall j, (1 <= j < k)%nat ->
              write_test (T_at s0 j) (combustor_T s0) (step_time s0 j) 0.0 = false).
  apply (stepping_loop_invariant
    (fun k v => sim v = state_at s0 k /\
       exists rows, outfile v = map PyStr (fieldnames B) :: rows
         /\ ((rows = [] /\ tprev v = 0.0 /\ Tprev v = combustor_T s0
              /\ forall j, (1 <= j <= k)%nat ->
                   write_test (T_at s0 j) (combustor_T s0) (step_time s0 j) 0.0 = false)
             \/ exists r, rows !! 0%nat = Some r /\ first r))
    (fun f => forall r, data_rows f !! 0%nat = Some r -> first r))
    with (k := O).
  - intros k v v' (Hs & rows & Hf & Hrows) _ Hb.
    split; [by eapply next_advances|].
    destruct (next_outfile s0 k v v' Hs Hb)
      as [(Ho & _ & _ & Hw)|(Ho & Htp & HTp & Hw)]; rewrite Ho, Hf.
    + exists (rows ++ [row_at s0 (S k)]). split; [done|]. right.
      destruct Hrows as [(-> & Ht0 & HT0 & Hnone)|(r & Hr & Hfirst)].
      * exists (row_at s0 (S k)). split; [done|]. exists (S k).
        rewrite Ht0, HT0 in Hw. split; [lia|]. split; [done|]. split; [done|].
        intros j Hj. apply Hnone. lia.
      * exists r. split; [|done]. by apply lookup_app_l_Some.
    + exists rows. split; [done|].
      destruct Hrows as [(-> & Ht0 & HT0 & Hnone)|?]; [left | by right].
      rewrite Htp, HTp. split; [done|]. split; [done|]. split; [done|].
      intros j Hj. destruct (decide (j = S k)) as [->|]; [|apply Hnone; lia].
      by rewrite Ht0, HT0 in Hw.
  - intros k v (_ & rows & Hf & Hrows) r. rewrite Hf. cbn.
    destruct Hrows as [(-> & _)|(r' & Hr' & ?)]; [done|].
    rewrite Hr'. by intros [= <-].
  - split; [done|]. exists []. split; [done|]. left.
    split; [done|]. split; [done|]. split; [done|]. intros j Hj. lia.
Qed.

End Ending.

(* ------------------------------------------------------------------ *)
(** ** The dictionary of a record *)
(* ------------------------------------------------------------------ *)

Section Dict.
Import Reader.

Lemma fold_restval_other (keys : list string) (d : gmap string (option string))
    (k : string) :
  k ∉ keys -> foldl (fun d key => <[key := None]> d) d keys !! k = d !! k.
Proof.
  revert d. induction keys as [|k0 keys IH]; intros d Hk; [done|].
  apply not_elem_of_cons in Hk as [Hne Hk]. cbn. rewrite IH by done.
  by rewrite lookup_insert_ne.
Qed.

(** Building the dictionary key by key. *)
Lemma make_dict_from_cons (d : gmap string (option string)) (k0 : string)
    (fn row : list string) :
  foldl (fun d key => <[key := None]> d)
    (foldl (fun d kv => <[kv.1 := Some kv.2]> d) d (zip (k0 :: fn) row))
    (drop (length row) (k0 :: fn))
  = foldl (fun d key => <[key := None]> d)
      (foldl (fun d kv => <[kv.1 := Some kv.2]> d) (<[k0 := head row]> d)
         (zip fn (tail row)))
      (drop (length (tail row)) fn).
Proof. destruct row as [|c row]; cbn; [by rewrite zip_with_nil_r | done]. Qed.

Lemma make_dict_from_other (fn row : list string) (d : gmap string (option string))
    (k : string) :
  k ∉ fn ->
  foldl (fun d key => <[key := None]> d)
    (foldl (fun d kv => <[kv.1 := Some kv.2]> d) d (zip fn row))
    (drop (length row) fn) !! k = d !! k.
Proof.
  revert row d. induction fn as [|k0 fn IH]; intros row d Hk.
  - by rewrite drop_nil.
  - apply not_elem_of_cons in Hk as [Hne Hk].
    rewrite make_dict_from_cons, IH by done. by rewrite lookup_insert_ne.
Qed.

Lemma make_dict_from_lookup (fn row : list string) (d : gmap string (option string))
    (j : nat) (k : string) :
  fn !! j = Some k -> k ∉ drop (S j) fn ->
  foldl (fun d key => <[key := None]> d)
    (foldl (fun d kv => <[kv.1 := Some kv.2]> d) d (zip fn row))
    (drop (length row) fn) !! k = Some (row !! j).
Proof.
  revert row d j. induction fn as [|k0 fn IH]; intros row d j Hj Hk; [done|].
  rewrite make_dict_from_cons. destruct j as [|j].
  - injection Hj as ->. cbn in Hk.
    rewrite make_dict_from_other by done. rewrite lookup_insert_eq.
    by destruct row.
  - rewrite (IH (tail row) _ j) by done. by destruct row.
Qed.

(** The value a record's dictionary holds under a field name is the cell at
    the last position that name has among the field names; a record too
    short for that position gives [None]. *)
Lemma make_dict_lookup (fn row : list string) (j : nat) (k : string) :
  fn !! j = Some k -> k ∉ drop (S j) fn ->
  make_dict fn row !! k = Some (row !! j).
Proof. apply make_dict_from_lookup. Qed.

Lemma last_position (fn : list string) (k : string) :
  k ∈ fn -> exists j, fn !! j = Some k /\ k ∉ drop (S j) fn.
Proof.
  induction fn as [|k0 fn IH]; intros Hk; [by apply elem_of_nil in Hk|].
  destruct (decide (k ∈ fn)) as [Hin|Hnin].
  - destruct (IH Hin) as (j & ? & ?). by exists (S j).
  - apply elem_of_cons in Hk as [->|]; [|done]. by exists O.
Qed.

Lemma species_position (names : list string) (i : nat) (sp : string) :
  NoDup names -> names !! i = Some sp ->
  (["time"; "T"; "tres"]%string ++ names) !! (3 + i)%nat = Some sp
  /\ sp ∉ drop (S (3 + i)) (["time"; "T"; "tres"]%string ++ names).
Proof.
  intros Hnd Hi. split; [done|]. cbn.
  intros Hin. apply list_elem_of_lookup in Hin as [n Hn].
  rewrite lookup_drop in Hn.
  pose proof (NoDup_lookup _ _ _ _ Hnd Hi Hn). lia.
Qed.

End Dict.

(* ------------------------------------------------------------------ *)
(** ** Iterating the DictReader *)
(* ------------------------------------------------------------------ *)

Section Iteration.
Import Reader.

Lemma skip_blank_nonblank (x : string) (r : list string)
    (rest : list (list string)) (n : nat) :
  skip_blank (x :: r) rest n = Some (x :: r, rest, n).
Proof. by destruct rest. Qed.

Ltac run_next :=
  unfold dr_next, skip_blanks, mbind, M_bind, bind, mret, M_ret, ret; cbn;
  rewrite skip_blank_nonblank; reflexivity.

(** A call of [next] once the field names are known. *)
Lemma dr_next_primed (c : list (list string)) (fn r : list string)
    (rest : list (list string)) (rl ln : nat) :
  ln <> O -> r <> [] ->
  dr_next {| contents := c; unread := r :: rest; reader_line_num := rl;
             dr_fieldnames := Some fn; dr_line_num := ln |}
  = Ok (Some (make_dict fn r))
       {| contents := c; unread := rest; reader_line_num := S rl;
          dr_fieldnames := Some fn; dr_line_num := S rl |}.
Proof.
  intros Hln Hr. destruct ln as [|ln]; [done|]. destruct r as [|x r]; [done|].
  run_next.
Qed.

Lemma dr_next_primed_eof (c : list (list string)) (fn : list string) (rl ln : nat) :
  ln <> O ->
  dr_next {| contents := c; unread := []; reader_line_num := rl;
             dr_fieldnames := Some fn; dr_line_num := ln |}
  = Ok None {| contents := c; unread := []; reader_line_num := rl;
               dr_fieldnames := Some fn; dr_line_num := ln |}.
Proof. intros Hln. destruct ln as [|ln]; [done|]. reflexivity. Qed.

(** The first call of [next] on a freshly opened table takes the header for
    the field names and goes on to the record after it. *)
Lemma dr_next_fresh (h r : list string) (rest : list (list string)) :
  r <> [] ->
  dr_next (open_reader (h :: r :: rest))
  = Ok (Some (make_dict h r))
       {| contents := h :: r :: rest; unread := rest; reader_line_num := 2;
          dr_fieldnames := Some h; dr_line_num := 2 |}.
Proof. intros Hr. destruct r as [|x r]; [done|]. run_next. Qed.

Lemma dr_next_fresh_eof (h : list string) :
  dr_next (open_reader [h])
  = Ok None {| contents := [h]; unread := []; reader_line_num := 1;
               dr_fieldnames := Some h; dr_line_num := 1 |}.
Proof. reflexivity. Qed.

(** One iteration of the comprehension, spelled out. *)
Lemma comprehension_S (fuel : nat) (item : string) (s : State) :
  comprehension (S fuel) item s
  = match dr_next s with
    | Ok None s' => Ok [] s'
    | Ok (Some d) s' =>
        match d !! item with
        | None => Throw (KeyError item)
        | Some x =>
            match comprehension fuel item s' with
            | Ok xs s'' => Ok (x :: xs) s''
            | Throw e => Throw e
            | Timeout => Timeout
            end
        end
    | Throw e => Throw e
    | Timeout => Timeout
    end.
Proof.
  cbn [comprehension]. unfold mbind, M_bind, bind.
  destruct (dr_next s) as [[d|] s'| |]; [|done..].
  by destruct (d !! item).
Qed.

(** One pass over what is unread, once the field names are known: every
    record gives the cell under the last position of [item]. *)
Lemma comprehension_primed (fn : list string) (item : string) (j : nat)
    (c : list (list string)) :
  fn !! j = Some item -> item ∉ drop (S j) fn ->
  forall (rows : list (list string)) (fuel rl ln : nat),
    Forall (fun r => r <> []) rows -> (length rows < fuel)%nat -> ln <> O ->
    exists rl' ln',
      ln' <> O /\
      comprehension fuel item
        {| contents := c; unread := rows; reader_line_num := rl;
           dr_fieldnames := Some fn; dr_line_num := ln |}
      = Ok (map (fun r => r !! j) rows)
           {| contents := c; unread := []; reader_line_num := rl';
              dr_fieldnames := Some fn; dr_line_num := ln' |}.
Proof.
  intros Hj Hlast rows. induction rows as [|r rows IH]; intros fuel rl ln Hnb Hfuel Hln.
  - destruct fuel as [|fuel]; [cbn in Hfuel; lia|]. exists rl, ln. split; [done|].
    by rewrite comprehension_S, dr_next_primed_eof.
  - destruct fuel as [|fuel]; [cbn in Hfuel; lia|].
    apply Forall_cons in Hnb as [Hr Hnb].
    destruct (IH fuel (S rl) (S rl) Hnb) as (rl' & ln' & Hln' & Hrun);
      [cbn in Hfuel; lia | done |].
    exists rl', ln'. split; [done|].
    rewrite comprehension_S, dr_next_primed by done.
    by rewrite (make_dict_lookup fn r j item), Hrun.
Qed.

Lemma listcomp_primed (fn : list string) (item : string) (j : nat)
    (c rows : list (list string)) (rl ln : nat) :
  fn !! j = Some item -> item ∉ drop (S j) fn ->
  Forall (fun r => r <> []) rows -> ln <> O ->
  exists rl' ln',
    ln' <> O /\
    listcomp item
      {| contents := c; unread := rows; reader_line_num := rl;
         dr_fieldnames := Some fn; dr_line_num := ln |}
    = Ok (map (fun r => r !! j) rows)
         {| contents := c; unread := []; reader_line_num := rl';
            dr_fieldnames := Some fn; dr_line_num := ln' |}.
Proof.
  intros Hj Hlast Hnb Hln. unfold listcomp. cbn [unread].
  apply comprehension_primed; [done | done | done | lia | done].
Qed.

(** The first pass: the header is consumed as the field names and every
    record after it gives one element. *)
Lemma first_pass (h : list string) (data : list (list string)) (item : string)
    (j : nat) :
  h !! j = Some item -> item ∉ drop (S j) h ->
  Forall (fun r => r <> []) data ->
  exists s,
    listcomp item (open_reader (h :: data)) = Ok (map (fun r => r !! j) data) s
    /\ primed (h :: data) s.
Proof.
  intros Hj Hlast Hnb. destruct data as [|r rest].
  - eexists. unfold listcomp. cbn [open_reader unread length].
    fold (open_reader [h]). rewrite comprehension_S, dr_next_fresh_eof.
    split; [reflexivity|]. by repeat split.
  - apply Forall_cons in Hnb as [Hr Hnb].
    destruct (comprehension_primed h item j (h :: r :: rest) Hj Hlast rest
                (S (S (length rest))) 2 2 Hnb) as (rl' & ln' & Hln' & Hrun);
      [lia | done |].
    eexists. unfold listcomp. cbn [open_reader unread length].
    fold (open_reader (h :: r :: rest)).
    rewrite comprehension_S, dr_next_fresh by done.
    rewrite (make_dict_lookup h r j item), Hrun by done.
    split; [reflexivity|]. by repeat split.
Qed.

(** A later pass: after the rewind the header comes out as a record of its
    own, which gives [item] itself, and is then dropped. *)
Lemma later_pass (h : list string) (data : list (list string)) (item : string)
    (j : nat) (s : State) :
  h !! j = Some item -> item ∉ drop (S j) h ->
  Forall (fun r => r <> []) data ->
  primed (h :: data) s ->
  exists s1 s2,
    (seek0;; listcomp item) s = Ok (Some item :: map (fun r => r !! j) data) s1
    /\ reread item s = Ok (map (fun r => r !! j) data) s2
    /\ primed (h :: data) s2.
Proof.
  intros Hj Hlast Hnb (Hc & Hfn & Hln).
  destruct s as [c u rl fn ln]. cbn in Hc, Hfn, Hln. subst c fn.
  assert (Hh : h <> []) by (intros ->; done).
  destruct (listcomp_primed h item j (h :: data) (h :: data) rl ln Hj Hlast)
    as (rl' & ln' & Hln' & Hrun); [by apply Forall_cons | done |].
  cbn [map] in Hrun. rewrite Hj in Hrun.
  do 2 eexists. unfold reread, mbind, M_bind, bind, seek0.
  cbn [contents reader_line_num dr_fieldnames dr_line_num].
  rewrite Hrun. cbn. split; [reflexivity|]. split; [reflexivity|]. by repeat split.
Qed.

(** The loop over the selected species, each column as [later_pass] has it. *)
Lemma for_species_primed (h : list string) (data : list (list string))
    (items : list string) :
  Forall (fun r => r <> []) data ->
  Forall (fun item => item ∈ h) items ->
  forall (acc : list (list (option string))) (s : State),
    primed (h :: data) s ->
    exists cols s',
      for_species items acc s = Ok (acc ++ cols) s'
      /\ primed (h :: data) s'
      /\ Forall2 (fun item col =>
            exists j, h !! j = Some item /\ (item ∉ drop (S j) h)
                      /\ col = map (fun r => r !! j) data) items cols.
Proof.
  intros Hnb. induction items as [|item items IH]; intros Hin acc s Hs.
  - exists [], s. rewrite app_nil_r. split; [done|]. split; [done|]. constructor.
  - apply Forall_cons in Hin as [Hitem Hin].
    destruct (last_position h item Hitem) as (j & Hj & Hlast).
    destruct (later_pass h data item j s Hj Hlast Hnb Hs) as (_ & s2 & _ & Hrun & Hs2).
    destruct (IH Hin (acc ++ [map (fun r => r !! j) data]) s2 Hs2)
      as (cols & s' & Hloop & Hs' & Hcols).
    exists (map (fun r => r !! j) data :: cols), s'.
    cbn [for_species]. unfold mbind, M_bind, bind. rewrite Hrun, Hloop.
    rewrite <- app_assoc. split; [done|]. split; [done|].
    apply Forall2_cons. split; [|done]. by exists j.
Qed.

End Iteration.

(* ------------------------------------------------------------------ *)
(** ** Reading back what the loop wrote *)
(* ------------------------------------------------------------------ *)

Section ReadBack.
Import Writer Run Reader.
Context {B : Backend}.
Variable float_repr : Q -> string.

Lemma lookup_map {A C : Type} (f : A -> C) (l : list A) (i : nat) :
  map f l !! i = f <$> (l !! i).
Proof. revert i. induction l as [|a l IH]; intros [|i]; cbn; auto. Qed.

(** Every data row of the table is the row of some step. *)
Lemma outfile_rows (fuel : nat) (s0 : sim_state B) :
  exists rows,
    outfile (final_vars (write_phase B fuel s0)) = map PyStr (fieldnames B) :: rows
    /\ Forall (fun r => exists k, r = row_at s0 k) rows.
Proof.
  unfold write_phase.
  apply (stepping_loop_invariant
    (fun k v => sim v = state_at s0 k /\
       exists rows, outfile v = map PyStr (fieldnames B) :: rows
         /\ Forall (fun r => exists k, r = row_at s0 k) rows)
    (fun f => exists rows, f = map PyStr (fieldnames B) :: rows
         /\ Forall (fun r => exists k, r = row_at s0 k) rows))
    with (k := O).
  - intros k v v' (Hs & rows & Hf & Hall) _ Hb.
    split; [by eapply next_advances|].
    destruct (next_outfile s0 k v v' Hs Hb) as [(-> & _)|(-> & _)]; [|eauto].
    exists (rows ++ [row_at s0 (S k)]). rewrite Hf. split; [done|].
    apply Forall_app. split; [done|]. apply Forall_singleton. eauto.
  - intros k v (_ & H). exact H.
  - split; [done|]. exists []. by split.
Qed.

Lemma csv_text_header (rows : list (list pyval)) :
  csv_text float_repr (map PyStr (fieldnames B) :: rows)
  = fieldnames B :: map (map (cell_text float_repr)) rows.
Proof.
  unfold csv_text. cbn [map]. f_equal. rewrite map_map. apply map_id.
Qed.

Lemma text_rows_nonblank (s0 : sim_state B) (rows : list (list pyval)) :
  Forall (fun r => exists k, r = row_at s0 k) rows ->
  Forall (fun r => r <> []) (map (map (cell_text float_repr)) rows).
Proof.
  intros Hall. apply Forall_map. eapply Forall_impl; [exact Hall|].
  intros r [k ->]. done.
Qed.

(** C10. After a run that finished, the read-back succeeds. The first pass
    takes the header for the field names, so the time series has one element
    per data row. Every pass after a rewind yields the header as a record of
    its own, whose cell under [item] is [item]; with that first element
    dropped, the temperature series and each of the six species series have
    one element per data row as well. This needs the six selected species to
    be species of the mechanism. *)
Theorem read_back_lengths
    (Hsel : Forall (fun item => item ∈ species_names B) selectspecies)
    (fuel : nat) (s0 : sim_state B) (v : Vars B) :
  write_phase B fuel s0 = Finished v ->
  let file := csv_text float_repr (outfile v) in
  let n := length (data_rows (outfile v)) in
  exists column0 columnT selspeX s1 s',
    listcomp "time" (open_reader file) = Ok column0 s1
    /\ primed file s1
    /\ (forall item s, item ∈ fieldnames B -> primed file s ->
          exists rest s2, (seek0;; listcomp item) s = Ok (Some item :: rest) s2
                          /\ length rest = n)
    /\ read_phase (open_reader file) = Ok (column0, columnT, selspeX) s'
    /\ program B float_repr fuel s0 = Ok (column0, columnT, selspeX) s'
    /\ length column0 = n
    /\ length columnT = n
    /\ length selspeX = 6%nat
    /\ Forall (fun column1 => length column1 = n) selspeX.
Proof.
  intros Hrun. cbv zeta.
  destruct (outfile_rows fuel s0) as (rows & Hf & Hall).
  rewrite Hrun in Hf. cbn [final_vars] in Hf. rewrite Hf, csv_text_header.
  cbn [data_rows tail].
  set (h := fieldnames B). set (data := map (map (cell_text float_repr)) rows).
  assert (Hnb : Forall (fun r => r <> []) data) by (by eapply text_rows_nonblank).
  assert (Hn : length data = length rows) by (apply length_map).
  assert (Htime : "time"%string ∈ h).
  { apply elem_of_app. left. apply elem_of_cons. by left. }
  assert (HT : "T"%string ∈ h).
  { apply elem_of_app. left. apply elem_of_cons. right. apply elem_of_cons. by left. }
  assert (Hsel' : Forall (fun item => item ∈ h) selectspecies).
  { eapply Forall_impl; [exact Hsel|]. intros item Hin.
    unfold h, fieldnames. apply elem_of_app. by right. }
  destruct (last_position h _ Htime) as (j0 & Hj0 & Hl0).
  destruct (first_pass h data _ j0 Hj0 Hl0 Hnb) as (s1 & Hp1 & Hs1).
  destruct (last_position h _ HT) as (jT & HjT & HlT).
  destruct (later_pass h data _ jT s1 HjT HlT Hnb Hs1) as (_ & s2 & _ & Hp2 & Hs2).
  destruct (for_species_primed h data selectspecies Hnb Hsel' [] s2 Hs2)
    as (cols & s' & Hp3 & _ & Hcols).
  assert (Hread : read_phase (open_reader (h :: data))
                  = Ok (map (fun r => r !! j0) data, map (fun r => r !! jT) data, cols) s').
  { unfold read_phase, mbind, M_bind, bind. by rewrite Hp1, Hp2, Hp3. }
  exists (map (fun r => r !! j0) data), (map (fun r => r !! jT) data), cols, s1, s'.
  split; [done|]. split; [done|]. split.
  { intros item s Hitem Hs.
    destruct (last_position h _ Hitem) as (j & Hj & Hl).
    destruct (later_pass h data _ j s Hj Hl Hnb Hs) as (s3 & _ & Hp & _).
    exists (map (fun r => r !! j) data), s3. split; [done|].
    by rewrite length_map. }
  split; [done|]. split.
  { unfold program. by rewrite Hrun, Hf, csv_text_header. }
  rewrite !length_map. split; [done|]. split; [done|].
  split; [by rewrite <- (Forall2_length _ _ _ Hcols)|].
  clear -Hcols Hn. induction Hcols as [|item col items cols (j & _ & _ & ->) _ IH];
    constructor; [by rewrite length_map | done].
Qed.

(** C8. After a run that finished, in a mechanism whose species names are
    distinct and whose mole-fraction vector has one entry per species,
    selecting the column of a species gives, data row by data row, the text
    the write phase produced for that species' mole fraction. *)
Theorem species_column_round_trip
    (HX : forall s : sim_state B, length (thermo_X s) = length (species_names B))
    (Hnd : NoDup (species_names B))
    (fuel : nat) (s0 : sim_state B) (v : Vars B) (i : nat) (sp : string)
    (s : State) :
  write_phase B fuel s0 = Finished v ->
  species_names B !! i = Some sp ->
  primed (csv_text float_repr (outfile v)) s ->
  exists column1 s',
    reread sp s = Ok column1 s'
    /\ primed (csv_text float_repr (outfile v)) s'
    /\ length column1 = length (data_rows (outfile v))
    /\ forall n r, data_rows (outfile v) !! n = Some r ->
         exists k x, r = row_at s0 k
           /\ thermo_X (state_at s0 k) !! i = Some x
           /\ r !! (3 + i)%nat = Some (PyFloat x)
           /\ column1 !! n = Some (Some (cell_text float_repr (PyFloat x))).
Proof.
  intros Hrun Hi.
  destruct (outfile_rows fuel s0) as (rows & Hf & Hall).
  rewrite Hrun in Hf. cbn [final_vars] in Hf. rewrite Hf, csv_text_header.
  cbn [data_rows tail]. intros Hs.
  destruct (species_position _ i sp Hnd Hi) as [Hj Hlast].
  destruct (later_pass (fieldnames B) (map (map (cell_text float_repr)) rows)
              sp (3 + i) s Hj Hlast (text_rows_nonblank s0 rows Hall) Hs)
    as (_ & s' & _ & Hp & Hs').
  eexists _, s'. split; [exact Hp|]. split; [done|].
  split; [by rewrite !length_map|].
  intros n r Hr. rewrite Forall_lookup in Hall.
  destruct (Hall n r Hr) as [k ->].
  destruct (lookup_lt_is_Some_2 (thermo_X (state_at s0 k)) i) as [x Hx].
  { rewrite HX. by eapply lookup_lt_Some. }
  exists k, x. split; [done|]. split; [done|].
  assert (Hcell : row_at s0 k !! (3 + i)%nat = Some (PyFloat x)).
  { unfold row_at, data_row. rewrite lookup_app_r by (cbn; lia).
    cbn [length]. replace (3 + i - 3)%nat with i by lia.
    by rewrite lookup_map, Hx. }
  split; [done|].
  rewrite !lookup_map, Hr. cbn [fmap option_fmap option_map].
  by rewrite lookup_map, Hcell.
Qed.

End ReadBack.

(* ------------------------------------------------------------------ *)
(** ** The properties on concrete traces *)
(* ------------------------------------------------------------------ *)

Section Traces.
Import Writer Run Reader Scripted.
Local Open Scope Q_scope.

Lemma replay_all (P : Obs -> Prop) (o0 : Obs) (script : list Obs) :
  P o0 -> Forall P script -> forall k, P (replay o0 script k).
Proof.
  intros H0 Hall k. unfold replay.
  assert (Hlast : P (List.last script o0)).
  { clear k. induction Hall as [|o [|o' l] Ho Hl IH]; [done | done | exact IH]. }
  destruct (nth_in_or_default k (o0 :: script) (List.last script o0)) as [Hin| ->];
    [|done].
  destruct Hin as [<-|Hin]; [done|].
  rewrite Forall_forall in Hall. apply Hall. by apply list_elem_of_In.
Qed.

Lemma short_last_X (k : sim_state B_short_last) :
  length (thermo_X k) = length (species_names B_short_last).
Proof.
  apply (replay_all (fun o => length (o_X o) = 6%nat)); [done|].
  repeat constructor.
Qed.

Lemma ramp_state (k : nat) : state_at (B := B_ramp) O k = k.
Proof.
  induction k as [|k IH]; [done|]. unfold state_at in *. cbn [sim_after].
  change (S (sim_after (B := B_ramp) k O).1 = S k). by f_equal.
Qed.

Lemma ramp_ascends (k : nat) :
  (1 <= k)%nat ->
  step_time (B := B_ramp) O k < step_time (B := B_ramp) O (S k).
Proof.
  intros Hk. destruct k as [|k]; [lia|]. unfold step_time. cbn [sim_after].
  fold (state_at (B := B_ramp) O k). fold (state_at (B := B_ramp) O (S k)).
  rewrite !ramp_state. unfold Qlt. cbn. lia.
Qed.

Lemma six_selected :
  Forall (fun item => item ∈ species_names B_short_last) selectspecies.
Proof. repeat constructor. Qed.

Lemma six_distinct : NoDup (species_names B_short_last).
Proof. apply (bool_decide_unpack _). vm_compute. exact I. Qed.

Lemma write_policy_witness :
  exists v',
    loop_body (init B_short_last O) = Next v'
    /\ outfile v'
       = outfile (init B_short_last O) ++ [row_at (B := B_short_last) O 1]
    /\ tprev v' = 1
    /\ Tprev v' = 300.
Proof.
  destruct (write_policy (init B_short_last O)) as (v' & Hb & Hiff & _).
  - discriminate.
  - exists v'. split; [exact Hb|]. apply Hiff. right. reflexivity.
Defined.

Lemma step_without_record :
  ~ Stated.record_iff_test B_zero_flow before_zero_flow.
Proof.
  intros [Hiff _]. destruct Hiff as [Hwrite _].
  destruct Hwrite as [Hfile _]; [right; reflexivity|].
  apply (f_equal length) in Hfile. discriminate.
Qed.

Lemma loop_exit_witness :
  exists m v,
    (m <= 3)%nat
    /\ write_phase B_short_last 3 O = Finished v
    /\ tfinal <= tnow v
    /\ exists t, last_record_time (outfile v) = Some t /\ tnow v - 2e-2 <= t.
Proof.
  destruct (loop_exit (B := B_short_last) O 3) as (m & v & Hm & _ & Hrun & _ & Hge & Hlast).
  - discriminate.
  - intros k Hk H0.
    assert (Hcases : k = 1%nat \/ k = 2%nat \/ k = 3%nat) by lia.
    destruct Hcases as [->|[->| ->]]; discriminate.
  - exists m, v. split; [exact Hm|]. split; [exact (Hrun 3%nat Hm)|].
    split; [exact Hge|].
    destruct Hlast as (t & Ht & _ & Hgap & _). exists t.
    split; [exact Ht | exact Hgap].
Defined.

Lemma last_record_before_tfinal :
  ~ Stated.last_record_reaches_tfinal B_short_last O.
Proof.
  intros H. destruct H as (fuel & v & Hrun & _ & t & Hlast & Hle).
  { exists 3%nat. discriminate. }
  assert (Hv : v = finished_short_last).
  { destruct (decide (fuel < 3)%nat) as [Hlt|Hge].
    - assert (Hcases : fuel = 0%nat \/ fuel = 1%nat \/ fuel = 2%nat) by lia.
      destruct Hcases as [->|[->| ->]]; discriminate.
    - unfold write_phase in Hrun.
      replace fuel with (3 + (fuel - 3))%nat in Hrun by lia.
      rewrite stepping_loop_more_fuel in Hrun by (intros w; discriminate).
      change (Finished finished_short_last = Finished v) in Hrun.
      by injection Hrun. }
  subst v. vm_compute in Hlast. injection Hlast as <-.
  apply Hle. reflexivity.
Qed.

Lemma table_shape_witness :
  exists rows,
    outfile finished_short_last
      = map PyStr (["time"; "T"; "tres"]%string ++ six) :: rows
    /\ Forall (fun r => length r = 9%nat) rows.
Proof.
  destruct (table_shape (B := B_short_last) short_last_X 3 O) as (rows & Hf & _ & Hall).
  exists rows. split; [exact Hf | exact Hall].
Defined.

Lemma first_record_not_initial_state :
  ~ Stated.first_record_is_initial_state B_short_last O.
Proof.
  intros (_ & _ & H). specialize (H 3%nat _ eq_refl). discriminate.
Qed.

Lemma residence_time_division_witness :
  (exists v',
     stepping_loop 1 before_zero_flow = Raised ZeroDivisionError v'
     /\ outfile v' = outfile before_zero_flow)
  /\ (exists v',
        loop_body (init B_short_last O) = Next v'
        /\ outfile v'
           = outfile (init B_short_last O) ++
               [[PyFloat 1; PyFloat 300; PyFloat (10 / 2)] ++ map PyFloat X6]).
Proof.
  split.
  - destruct (residence_time_division before_zero_flow) as [Hzero _].
    destruct Hzero as (v' & _ & Hfile & _ & _ & Hloop); [reflexivity|].
    exists v'. split; [|exact Hfile]. apply Hloop. reflexivity.
  - destruct (residence_time_division (init B_short_last O)) as (_ & Hflow & _).
    destruct Hflow as (v' & Hb & Hwrite & _); [discriminate|].
    exists v'. split; [exact Hb|]. apply Hwrite. right. reflexivity.
Defined.

Lemma written_times_ascend_witness :
  exists t1 t2,
    row_time (row_at (B := B_ramp) O 1) = Some t1
    /\ row_time (row_at (B := B_ramp) O 2) = Some t2
    /\ t1 < t2.
Proof.
  apply (written_times_ascend (B := B_ramp) O ramp_ascends 4 0); reflexivity.
Defined.

Lemma primed_after_passes :
  primed (csv_text show_Q (outfile finished_short_last))
    {| contents := csv_text show_Q (outfile finished_short_last);
       unread := [];
       reader_line_num := 3;
       dr_fieldnames := Some (fieldnames B_short_last);
       dr_line_num := 3 |}.
Proof. repeat split. discriminate. Qed.

Lemma species_column_round_trip_witness :
  exists column1 s',
    reread "CH4"
      {| contents := csv_text show_Q (outfile finished_short_last);
         unread := [];
         reader_line_num := 3;
         dr_fieldnames := Some (fieldnames B_short_last);
         dr_line_num := 3 |}
    = Ok column1 s'
    /\ length column1 = 2%nat
    /\ column1 !! 1%nat = Some (Some (show_Q 0.3)).
Proof.
  destruct (species_column_round_trip (B := B_short_last) show_Q
              short_last_X six_distinct 3 O finished_short_last 1 "CH4" _
              eq_refl eq_refl primed_after_passes)
    as (column1 & s' & Hp & _ & Hlen & Hcells).
  exists column1, s'. split; [exact Hp|]. split; [exact Hlen|].
  destruct (Hcells 1%nat _ eq_refl) as (k & x & _ & _ & Hx & Hcol).
  injection Hx as <-. exact Hcol.
Defined.

Lemma read_back_lengths_witness :
  exists column0 columnT selspeX s',
    program B_short_last show_Q 3 O = Ok (column0, columnT, selspeX) s'
    /\ length column0 = 2%nat
    /\ length columnT = 2%nat
    /\ Forall (fun column1 => length column1 = 2%nat) selspeX.
Proof.
  destruct (read_back_lengths (B := B_short_last) show_Q six_selected 3 O
              finished_short_last eq_refl)
    as (column0 & columnT & selspeX & s1 & s' & _ & _ & _ & _ & Hprog & H0 & HT & _ & Hsp).
  exists column0, columnT, selspeX, s'.
  split; [exact Hprog|]. split; [exact H0|]. split; [exact HT | exact Hsp].
Defined.

End Traces.

(* ================================================================== *)
(** * Further properties of the script *)
(* ================================================================== *)

(* ------------------------------------------------------------------ *)
(** ** The shape of the real-valued igniter pulse *)
(* ------------------------------------------------------------------ *)

Section IgniterShape.
Import Igniter.
Local Open Scope R_scope.

Lemma ln2_pos : 0 < ln 2.
Proof. rewrite <- ln_1. apply ln_increasing; lra. Qed.

Lemma igniter_mdot_centred (t : R) :
  igniter_mdot t = exp (- (100 * (t - t0) ^ 2 * ln 2)).
Proof.
  replace t with (t0 + (t - t0)) at 1 by lra. apply igniter_mdot_offset.
Qed.

Lemma sqr_lt_of_abs_lt (x y : R) : Rabs x < Rabs y -> x ^ 2 < y ^ 2.
Proof.
  intros H. apply Rsqr_lt_abs_1 in H. unfold Rsqr in H. lra.
Qed.

Lemma sqr_le_of_abs_le (x y : R) : Rabs x <= Rabs y -> x ^ 2 <= y ^ 2.
Proof.
  intros H. apply Rsqr_le_abs_1 in H. unfold Rsqr in H. lra.
Qed.

(** The real-valued pulse falls as the time moves away from its centre, on
    either side. *)
Theorem igniter_falls_off (t1 t2 : R) :
  Rabs (t1 - t0) < Rabs (t2 - t0) -> igniter_mdot t2 < igniter_mdot t1.
Proof.
  intros H. rewrite !igniter_mdot_centred. apply exp_increasing.
  apply sqr_lt_of_abs_lt in H. pose proof ln2_pos. nra.
Qed.

(** The real-valued pulse is at least half the amplitude exactly on the
    interval of length [fwhm] around [t0]. *)
Theorem igniter_half_width (t : R) :
  amplitude / 2 <= igniter_mdot t <-> Rabs (t - t0) <= fwhm / 2.
Proof.
  rewrite igniter_mdot_centred.
  replace (amplitude / 2) with (exp (- ln 2))
    by (rewrite exp_Ropp, exp_ln by lra; unfold amplitude; lra).
  replace (fwhm / 2) with (Rabs (/ 10))
    by (rewrite Rabs_pos_eq by lra; unfold fwhm; lra).
  pose proof ln2_pos as Hln. split.
  - intros H.
    assert (Hle : - ln 2 <= - (100 * (t - t0) ^ 2 * ln 2)).
    { destruct H as [H|H]; [left; by apply exp_lt_inv | right; by apply exp_inv]. }
    assert (Hs : (t - t0) ^ 2 <= (/ 10) ^ 2) by nra.
    apply Rsqr_le_abs_0. unfold Rsqr. lra.
  - intros H. apply sqr_le_of_abs_le in H.
    assert (Hle : - ln 2 <= - (100 * (t - t0) ^ 2 * ln 2)) by nra.
    destruct Hle as [Hlt|Heq]; [left; by apply exp_increasing | right; by rewrite Heq].
Qed.

Lemma igniter_mdot_decay (t : R) :
  t <> t0 -> igniter_mdot t < / (100 * (t - t0) ^ 2 * ln 2).
Proof.
  intros Hne. rewrite igniter_mdot_centred. pose proof ln2_pos as Hln.
  assert (Hd : 0 < (t - t0) ^ 2) by (assert (t - t0 <> 0) by lra; nra).
  set (y := 100 * (t - t0) ^ 2 * ln 2). assert (Hy : 0 < y) by (unfold y; nra).
  assert (Hexp : 1 + y < exp y) by (apply exp_ineq1; lra).
  rewrite exp_Ropp. apply Rinv_lt_contravar; [|lra].
  apply Rmult_lt_0_compat; [lra | apply exp_pos].
Qed.

(** X3. Far from its centre the pulse is as small as one likes. *)
Theorem igniter_vanishes (eps : R) :
  0 < eps ->
  exists M, forall t, M < Rabs (t - t0) -> igniter_mdot t < eps.
Proof.
  intros Heps. pose proof ln2_pos as Hln.
  exists (Rmax 1 (/ (100 * ln 2 * eps))). intros t Ht.
  assert (H1 : 1 < Rabs (t - t0)) by (eapply Rle_lt_trans; [apply Rmax_l | exact Ht]).
  assert (H2 : / (100 * ln 2 * eps) < Rabs (t - t0))
    by (eapply Rle_lt_trans; [apply Rmax_r | exact Ht]).
  assert (Hne : t <> t0).
  { intros ->. rewrite Rminus_diag, Rabs_R0 in H1. lra. }
  eapply Rlt_trans; [by apply igniter_mdot_decay|].
  assert (Habs : Rabs (t - t0) < (t - t0) ^ 2).
  { replace ((t - t0) ^ 2) with (Rabs (t - t0) * Rabs (t - t0)).
    - nra.
    - rewrite <- Rabs_mult. rewrite Rabs_pos_eq by nra. lra. }
  assert (Hk : 0 < 100 * ln 2 * eps) by nra.
  assert (Hinv : / (100 * ln 2 * eps) < (t - t0) ^ 2) by lra.
  assert (Hprod : 1 < (100 * ln 2 * eps) * (t - t0) ^ 2).
  { apply Rmult_lt_compat_l with (r := 100 * ln 2 * eps) in Hinv; [|done].
    rewrite Rinv_r in Hinv by lra. exact Hinv. }
  assert (Hpos : 0 < 100 * (t - t0) ^ 2 * ln 2) by nra.
  apply Rmult_lt_reg_r with (r := 100 * (t - t0) ^ 2 * ln 2); [done|].
  rewrite Rinv_l by lra. lra.
Qed.

End IgniterShape.

(* ------------------------------------------------------------------ *)
(** ** What the sampler keeps and what it guarantees *)
(* ------------------------------------------------------------------ *)

Section Sampler.
Import Writer Run.
Local Open Scope Q_scope.
Context {B : Backend}.

(** What a raising step leaves behind. *)
Lemma raise_keeps_trackers (v v' : Vars B) (e : exn) :
  loop_body v = Raise e v' ->
  e = ZeroDivisionError
  /\ outfile v' = outfile v /\ tprev v' = tprev v /\ Tprev v' = Tprev v
  /\ sim v' = fst (sim_step (sim v) tfinal)
  /\ tnow v' = snd (sim_step (sim v) tfinal)
  /\ valve_mdot (sim v') (tnow v') == 0.
Proof.
  intros Hb.
  destruct (loop_body_cases v) as [[Hz H]|[(_ & _ & H)|(_ & _ & H)]];
    rewrite H in Hb; [|discriminate..].
  by injection Hb as <- <-.
Qed.

(** An invariant of the loop body holds of the variables when the loop ends
    without an exception. *)
Lemma stepping_loop_keeps (P : Vars B -> Prop) :
  (forall v v', P v -> loop_body v = Next v' -> P v') ->
  forall fuel v, P v ->
    forall v', stepping_loop fuel v = Finished v' \/ stepping_loop fuel v = OutOfFuel v' ->
    P v'.
Proof.
  intros Hstep fuel. induction fuel as [|fuel IH]; intros v HP v'; cbn.
  - destruct (Qltb (tnow v) tfinal); intros [[= <-]|[= <-]]; done.
  - destruct (Qltb (tnow v) tfinal); [|intros [[= <-]|[= <-]]; done].
    destruct (loop_body v) as [w|e w] eqn:Hb; [eauto|].
    intros [H|H]; discriminate.
Qed.

(** An invariant that a raising step does not disturb holds however the loop
    ends. *)
Lemma stepping_loop_keeps_all (P : Vars B -> Prop) :
  (forall v v', P v -> loop_body v = Next v' -> P v') ->
  (forall v e v', P v -> loop_body v = Raise e v' -> P v') ->
  forall fuel v, P v -> P (final_vars (stepping_loop fuel v)).
Proof.
  intros Hstep Hraise fuel. induction fuel as [|fuel IH]; intros v HP; cbn.
  - by destruct (Qltb (tnow v) tfinal).
  - destruct (Qltb (tnow v) tfinal); [|done].
    destruct (loop_body v) as [w|e w] eqn:Hb; cbn; eauto.
Qed.


Lemma Qminus_diag_le (x c : Q) : 0 <= c -> x - x <= c.
Proof. intros Hc. Lqa.lra. Qed.


(** X5. The trackers always hold the time and the temperature of the last data
    row of the table, and the state at time 0 while there is none. *)
Theorem trackers_mirror_last_row (fuel : nat) (s0 : sim_state B) :
  let v := final_vars (write_phase B fuel s0) in
  (data_rows (outfile v) = [] /\ tprev v = 0.0 /\ Tprev v = combustor_T s0)
  \/ exists r cells,
       last (data_rows (outfile v)) = Some r
       /\ r = PyFloat (tprev v) :: PyFloat (Tprev v) :: cells.
Proof.
  cbv zeta. unfold write_phase.
  destruct (stepping_loop_keeps_all
    (fun v => exists rows, outfile v = map PyStr (fieldnames B) :: rows /\
       ((rows = [] /\ tprev v = 0.0 /\ Tprev v = combustor_T s0)
        \/ exists r cells, last rows = Some r
             /\ r = PyFloat (tprev v) :: PyFloat (Tprev v) :: cells)))
    with (fuel := fuel) (v := init B s0) as (rows & Hf & Hrows).
  - intros v v' (rows & Hf & Hrows) Hb.
    destruct (loop_body_cases v) as [[_ H]|[(_ & _ & H)|(_ & _ & H)]];
      rewrite H in Hb; [discriminate | |]; injection Hb as <-; cbn.
    + eexists. rewrite Hf. split; [by rewrite app_comm_cons|].
      right. do 2 eexists. rewrite last_snoc. split; [done|]. reflexivity.
    + by exists rows.
  - intros v e v' (rows & Hf & Hrows) Hb.
    apply raise_keeps_trackers in Hb as (_ & -> & -> & -> & _). by exists rows.
  - exists []. split; [done|]. by left.
  - by rewrite Hf.
Qed.

End Sampler.

(* ------------------------------------------------------------------ *)
(** ** The table as the run goes on *)
(* ------------------------------------------------------------------ *)

Section Growth.
Import Writer Run.
Local Open Scope Q_scope.
Context {B : Backend}.

(** As [stepping_loop_invariant], keeping count of the steps taken. *)
Lemma stepping_loop_invariant_steps
    (P : nat -> Vars B -> Prop) (F : nat -> list (list pyval) -> Prop) :
  (forall k v v', P k v -> loop_body v = Next v' -> P (S k) v') ->
  (forall k v, P k v -> F k (outfile v)) ->
  forall fuel k v, P k v ->
    exists k', (k' <= k + fuel)%nat
               /\ F k' (outfile (final_vars (stepping_loop fuel v))).
Proof.
  intros Hstep Hfin fuel. induction fuel as [|fuel IH]; intros k v HP; cbn.
  - exists k. split; [lia|]. destruct (Qltb (tnow v) tfinal); cbn; eauto.
  - destruct (Qltb (tnow v) tfinal) eqn:Hc; cbn; [|exists k; split; [lia | eauto]].
    destruct (loop_body v) as [v'|e v'] eqn:Hb.
    + destruct (IH (S k) v' (Hstep _ _ _ HP Hb)) as (k' & Hk' & HF).
      exists k'. split; [lia | done].
    + cbn. apply raise_keeps_outfile in Hb as [-> _].
      exists k. split; [lia | eauto].
Qed.

(** X6. Every data row of the table is the row of a step whose division
    succeeded, the rows follow the order of the steps, and no step has more
    than one row: the table is a selection from the stepper's trace. *)
Theorem written_rows_are_steps (fuel : nat) (s0 : sim_state B) :
  exists ks : list nat,
    data_rows (outfile (final_vars (write_phase B fuel s0))) = map (row_at s0) ks
    /\ (forall i j a b, (i < j)%nat -> ks !! i = Some a -> ks !! j = Some b ->
                        (a < b)%nat)
    /\ Forall (fun k => (1 <= k <= fuel)%nat /\ ~ mdot_at s0 k == 0) ks.
Proof.
  unfold write_phase.
  destruct (stepping_loop_invariant_steps
    (fun k v => sim v = state_at s0 k /\
       exists ks, outfile v = map PyStr (fieldnames B) :: map (row_at s0) ks
         /\ (forall i j a b, (i < j)%nat -> ks !! i = Some a -> ks !! j = Some b ->
                             (a < b)%nat)
         /\ Forall (fun j => (1 <= j <= k)%nat /\ ~ mdot_at s0 j == 0) ks)
    (fun k f => exists ks, f = map PyStr (fieldnames B) :: map (row_at s0) ks
         /\ (forall i j a b, (i < j)%nat -> ks !! i = Some a -> ks !! j = Some b ->
                             (a < b)%nat)
         /\ Forall (fun j => (1 <= j <= k)%nat /\ ~ mdot_at s0 j == 0) ks))
    with (fuel := fuel) (k := O) (v := init B s0)
    as (k' & Hk' & ks & Hf & Hinc & Hall).
  - intros k v v' (Hs & ks & Hf & Hinc & Hall) Hb.
    split; [by eapply next_advances|].
    assert (Hall' : Forall (fun j => (1 <= j <= S k)%nat /\ ~ mdot_at s0 j == 0) ks).
    { eapply Forall_impl; [exact Hall|]. intros j [? ?]. split; [lia | done]. }
    assert (Hflow : ~ mdot_at s0 (S k) == 0).
    { unfold mdot_at, state_at, step_time in *. cbn [sim_after]. rewrite <- Hs.
      destruct (loop_body_cases v) as [[_ H]|[(Hnz & _)|(Hnz & _)]]; [|done..].
      rewrite H in Hb. discriminate. }
    destruct (next_outfile s0 k v v' Hs Hb) as [(Ho & _)|(Ho & _)]; rewrite Ho, Hf.
    + exists (ks ++ [S k]). rewrite map_app. split; [done|]. split.
      * intros i j a b Hij Ha Hb'.
        destruct (decide (j < length ks)%nat) as [Hj|Hj].
        -- rewrite lookup_app_l in Ha by lia. rewrite lookup_app_l in Hb' by lia.
           eauto.
        -- assert (Hjl : j = length ks).
           { apply lookup_lt_Some in Hb'. rewrite length_app in Hb'. cbn in Hb'. lia. }
           subst j. rewrite lookup_app_l in Ha by lia.
           rewrite lookup_app_r, Nat.sub_diag in Hb' by lia. injection Hb' as <-.
           rewrite Forall_lookup in Hall. destruct (Hall i a Ha) as [? _]. lia.
      * apply Forall_app. split; [done|]. apply Forall_singleton. split; [lia | done].
    + exists ks. by repeat split.
  - intros k v (_ & H). exact H.
  - split; [done|]. exists []. split; [done|]. split; [|done].
    intros i j a b _ Ha. by rewrite lookup_nil in Ha.
  - exists ks. rewrite Hf. split; [done|]. split; [done|].
    eapply Forall_impl; [exact Hall|]. intros j [? ?]. split; [lia | done].
Qed.

Lemma outfile_grows (fuel : nat) (v : Vars B) :
  outfile v `prefix_of` outfile (final_vars (stepping_loop fuel v)).
Proof.
  revert v. induction fuel as [|fuel IH]; intros v; cbn.
  - by destruct (Qltb (tnow v) tfinal).
  - destruct (Qltb (tnow v) tfinal); [|done].
    destruct (loop_body_cases v) as [[_ H]|[(_ & _ & H)|(_ & _ & H)]]; rewrite H.
    + done.
    + etrans; [|apply IH]. cbn. by apply prefix_app_r.
    + etrans; [|apply IH]. done.
Qed.

(** X7. The loop only appends: the table after more iterations starts with the
    table after fewer. *)
Theorem table_append_only (fuel extra : nat) (s0 : sim_state B) :
  outfile (final_vars (write_phase B fuel s0))
    `prefix_of` outfile (final_vars (write_phase B (fuel + extra) s0)).
Proof.
  unfold write_phase. generalize (init B s0). induction fuel as [|fuel IH]; intros v.
  - replace (stepping_loop 0 v) with
      (if Qltb (tnow v) tfinal then OutOfFuel v else Finished v) by done.
    replace (final_vars (if Qltb (tnow v) tfinal then OutOfFuel v else Finished v))
      with v by (by destruct (Qltb (tnow v) tfinal)).
    apply outfile_grows.
  - cbn. destruct (Qltb (tnow v) tfinal); [|done].
    destruct (loop_body v); [apply IH | done].
Qed.

Lemma stepping_loop_finished (fuel : nat) (v v' : Vars B) :
  stepping_loop fuel v = Finished v' -> tfinal <= tnow v'.
Proof.
  revert v. induction fuel as [|fuel IH]; intros v; cbn.
  - destruct (Qltb (tnow v) tfinal) eqn:Hc; [done|]. intros [= <-]. by apply Qltb_ge.
  - destruct (Qltb (tnow v) tfinal) eqn:Hc; [|intros [= <-]; by apply Qltb_ge].
    destruct (loop_body v); [apply IH | done].
Qed.

(** X8. A run that leaves the loop by its condition has written at least one
    data row, and the last one at most 0.02 before the time it stopped at;
    so the read-back never pops from an empty column. *)
Theorem finished_run_has_rows (fuel : nat) (s0 : sim_state B) (v : Vars B) :
  write_phase B fuel s0 = Finished v ->
  tfinal <= tnow v
  /\ exists r t, last (data_rows (outfile v)) = Some r
                 /\ row_time r = Some t
                 /\ tnow v - 2e-2 <= t.
Proof.
  intros Hrun. split; [by eapply stepping_loop_finished|].
  assert (Hge : tfinal <= tnow v) by (by eapply stepping_loop_finished).
  destruct (stepping_loop_keeps
    (fun v : Vars B =>
       (exists rows, outfile v = map PyStr (fieldnames B) :: rows /\
          ((rows = [] /\ tprev v = 0.0)
           \/ exists r, last rows = Some r /\ row_time r = Some (tprev v)))
       /\ tnow v - tprev v <= 2e-2))
    with (fuel := fuel) (v := init B s0) (v' := v)
    as [(rows & Hf & Hrows) Hgap].
  - intros w w' [(rows & Hf & Hrows) _] Hb.
    destruct (loop_body_cases w) as [[_ H]|[(_ & Hw & H)|(_ & Hw & H)]];
      rewrite H in Hb; [discriminate | |]; injection Hb as <-; cbn.
    + split; [|by apply Qminus_diag_le]. eexists. rewrite Hf.
      split; [by rewrite app_comm_cons|]. right. eexists. by rewrite last_snoc.
    + split; [by exists rows|]. by apply write_test_false in Hw as [_ Hw].
  - split; [|done]. exists []. split; [done|]. by left.
  - by left.
  - assert (Hgap' : tnow v - 2e-2 <= tprev v).
    { revert Hgap. generalize 2e-2 (tnow v) (tprev v). intros c a b H. Lqa.lra. }
    rewrite Hf. cbn [data_rows tail].
    destruct Hrows as [[-> H0]|(r & Hr & Hrt)]; [|by exists r, (tprev v)].
    exfalso. rewrite H0 in Hgap'.
    apply (Qlt_not_le 0.0 (tnow v - 2e-2)); [|done].
    apply Qlt_le_trans with (y := tfinal - 2e-2); [done|].
    unfold Qminus. by apply Qplus_le_l.
Qed.

Lemma stepping_loop_split (a b : nat) (v w : Vars B) :
  stepping_loop a v = OutOfFuel w ->
  stepping_loop (a + b) v = stepping_loop b w.
Proof.
  revert v. induction a as [|a IH]; intros v; cbn.
  - destruct (Qltb (tnow v) tfinal); [|done]. by intros [= <-].
  - destruct (Qltb (tnow v) tfinal); [|done].
    destruct (loop_body v); [apply IH | done].
Qed.

(** X9. A valve flow of zero at step [n] ends the run at that step, whatever the
    step would have written: the table is the one the first [n - 1] steps
    left, and nothing is read back. *)
Theorem division_ends_run (s0 : sim_state B) (n : nat) :
  (1 <= n)%nat ->
  (forall k, (k < n)%nat -> step_time s0 k < tfinal) ->
  (forall k, (1 <= k < n)%nat -> ~ mdot_at s0 k == 0) ->
  mdot_at s0 n == 0 ->
  exists v,
    (forall fuel, (n <= fuel)%nat -> write_phase B fuel s0 = Raised ZeroDivisionError v)
    /\ tnow v = step_time s0 n
    /\ outfile v = outfile (final_vars (write_phase B (n - 1) s0))
    /\ forall float_repr fuel, (n <= fuel)%nat ->
         program B float_repr fuel s0 = Reader.Throw ZeroDivisionError.
Proof.
  intros Hn Hlt Hflow Hzero. destruct n as [|m]; [lia|]. clear Hn.
  replace (S m - 1)%nat with m by lia.
  destruct (stepping_loop_runs s0 (fun _ _ => True) m) with (fuel := O)
    as (v0 & Hrun & Hs & Ht & _); [done | done | | |].
  { intros k Hk. apply Hlt. lia. }
  { intros k Hk. apply Hflow. lia. }
  assert (Hc : Qltb (tnow v0) tfinal = true).
  { apply Qltb_lt. rewrite Ht. apply Hlt. lia. }
  assert (Hout : write_phase B m s0 = OutOfFuel v0).
  { unfold write_phase. replace m with (m + 0)%nat at 1 by lia.
    rewrite Hrun. cbn. by rewrite Hc. }
  assert (Hz : valve_mdot (sim_step (sim v0) tfinal).1 (sim_step (sim v0) tfinal).2 == 0).
  { revert Hzero. unfold mdot_at, state_at, step_time in *. cbn [sim_after].
    by rewrite <- Hs. }
  destruct (loop_body_cases v0) as [[_ H]|[(Hnz & _)|(Hnz & _)]]; [|done..].
  eexists. split; [|split; [|split]].
  - intros fuel Hfuel. unfold write_phase.
    replace fuel with (m + S (fuel - S m))%nat by lia.
    rewrite (stepping_loop_split _ _ _ v0 Hout). cbn. rewrite Hc, H. reflexivity.
  - cbn. unfold step_time, state_at in *. cbn [sim_after]. by rewrite <- Hs.
  - by rewrite Hout.
  - intros float_repr fuel Hfuel. unfold program, write_phase.
    replace fuel with (m + S (fuel - S m))%nat by lia.
    rewrite (stepping_loop_split _ _ _ v0 Hout). cbn. by rewrite Hc, H.
Qed.

End Growth.

(* ------------------------------------------------------------------ *)
(** ** The read-back on any table, and when it fails *)
(* ------------------------------------------------------------------ *)

Section Passes.
Import Writer Run Reader.

Lemma make_dict_missing (fn row : list string) (k : string) :
  k ∉ fn -> make_dict fn row !! k = None.
Proof.
  intros Hk. unfold make_dict. by rewrite make_dict_from_other, lookup_empty.
Qed.

(** A pass after a rewind for a key that is no field name stops at the
    header. *)
Lemma later_pass_missing (h : list string) (data : list (list string))
    (item : string) (s : State) :
  h <> [] -> item ∉ h -> primed (h :: data) s ->
  reread item s = Throw (KeyError item).
Proof.
  intros Hh Hitem (Hc & Hfn & Hln).
  destruct s as [c u rl fn ln]. cbn in Hc, Hfn, Hln. subst c fn.
  unfold reread, mbind, M_bind, bind, seek0, listcomp.
  cbn [contents reader_line_num dr_fieldnames dr_line_num unread length].
  rewrite comprehension_S, dr_next_primed by done.
  by rewrite make_dict_missing.
Qed.

Lemma for_species_missing (h : list string) (data : list (list string))
    (pre post : list string) (item : string) :
  h <> [] ->
  Forall (fun r => r <> []) data ->
  Forall (fun item => item ∈ h) pre -> item ∉ h ->
  forall (acc : list (list (option string))) (s : State),
    primed (h :: data) s ->
    for_species (pre ++ item :: post) acc s = Throw (KeyError item).
Proof.
  intros Hh Hnb Hpre Hitem. induction Hpre as [|p pre Hp Hpre IH]; intros acc s Hs.
  - cbn [app for_species]. unfold mbind, M_bind, bind.
    by rewrite (later_pass_missing h data item s).
  - destruct (last_position h p Hp) as (j & Hj & Hlast).
    destruct (later_pass h data p j s Hj Hlast Hnb Hs) as (_ & s2 & _ & Hrun & Hs2).
    cbn [app for_species]. unfold mbind, M_bind, bind. rewrite Hrun. by apply IH.
Qed.

Lemma first_missing (h items : list string) :
  Forall (fun item => item ∈ h) items
  \/ exists pre item post,
       items = pre ++ item :: post
       /\ Forall (fun item => item ∈ h) pre /\ item ∉ h.
Proof.
  induction items as [|x items [IH|(pre & item & post & -> & Hpre & Hitem)]].
  - by left.
  - destruct (decide (x ∈ h)) as [Hx|Hx].
    + left. by constructor.
    + right. by exists [], x, items.
  - destruct (decide (x ∈ h)) as [Hx|Hx].
    + right. exists (x :: pre), item, post. split; [done|]. split; [by constructor | done].
    + right. by exists [], x, (pre ++ item :: post).
Qed.

(** The read-back of a table with a header that has [time], [T] and every
    selected species succeeds. *)
Lemma read_phase_succeeds (h : list string) (data : list (list string)) :
  "time"%string ∈ h -> "T"%string ∈ h ->
  Forall (fun item => item ∈ h) selectspecies ->
  Forall (fun r => r <> []) data ->
  exists res s', read_phase (open_reader (h :: data)) = Ok res s'.
Proof.
  intros Htime HT Hsel Hnb.
  destruct (last_position h _ Htime) as (j0 & Hj0 & Hl0).
  destruct (first_pass h data _ j0 Hj0 Hl0 Hnb) as (s1 & Hp1 & Hs1).
  destruct (last_position h _ HT) as (jT & HjT & HlT).
  destruct (later_pass h data _ jT s1 HjT HlT Hnb Hs1) as (_ & s2 & _ & Hp2 & Hs2).
  destruct (for_species_primed h data selectspecies Hnb Hsel [] s2 Hs2)
    as (cols & s' & Hp3 & _).
  do 2 eexists. unfold read_phase, mbind, M_bind, bind. by rewrite Hp1, Hp2, Hp3.
Qed.

(** The read-back of a table whose header has [time] and [T] but lacks a
    selected species raises [KeyError] for the first one it lacks. *)
Lemma read_phase_missing (h : list string) (data : list (list string))
    (pre post : list string) (item : string) :
  "time"%string ∈ h -> "T"%string ∈ h ->
  selectspecies = pre ++ item :: post ->
  Forall (fun item => item ∈ h) pre -> item ∉ h ->
  Forall (fun r => r <> []) data ->
  read_phase (open_reader (h :: data)) = Throw (KeyError item).
Proof.
  intros Htime HT Hsel Hpre Hitem Hnb.
  assert (Hh : h <> []) by (intros ->; by apply elem_of_nil in Htime).
  destruct (last_position h _ Htime) as (j0 & Hj0 & Hl0).
  destruct (first_pass h data _ j0 Hj0 Hl0 Hnb) as (s1 & Hp1 & Hs1).
  destruct (last_position h _ HT) as (jT & HjT & HlT).
  destruct (later_pass h data _ jT s1 HjT HlT Hnb Hs1) as (_ & s2 & _ & Hp2 & Hs2).
  unfold read_phase, mbind, M_bind, bind. rewrite Hp1, Hp2, Hsel.
  by rewrite (for_species_missing h data pre post item Hh Hnb Hpre Hitem [] s2 Hs2).
Qed.

(** X13. On any table with a header and no blank record, every pass for a field
    name gives the same column, whatever was read before: the first pass as
    it is, a later one once its first element is dropped. The column holds,
    record by record, the cell at the last position the name has in the
    header, and [None] where the record is too short. *)
Theorem passes_agree (h : list string) (data : list (list string)) (item : string) :
  item ∈ h ->
  Forall (fun r => r <> []) data ->
  exists (j : nat) (s1 : State),
    h !! j = Some item
    /\ (item ∉ drop (S j) h)
    /\ listcomp item (open_reader (h :: data)) = Ok (map (fun r => r !! j) data) s1
    /\ primed (h :: data) s1
    /\ forall s, primed (h :: data) s ->
         exists s', reread item s = Ok (map (fun r => r !! j) data) s'
                    /\ primed (h :: data) s'.
Proof.
  intros Hitem Hnb. destruct (last_position h item Hitem) as (j & Hj & Hlast).
  destruct (first_pass h data item j Hj Hlast Hnb) as (s1 & Hp1 & Hs1).
  exists j, s1. split; [done|]. split; [done|]. split; [done|]. split; [done|].
  intros s Hs.
  destruct (later_pass h data item j s Hj Hlast Hnb Hs) as (_ & s' & _ & Hp & Hs').
  by exists s'.
Qed.

(** X14. On an empty file the rewind-collect-drop of lines 112-114 raises
    [IndexError]: there is no header to drop. *)
Theorem empty_file_reread (item : string) (s : State) :
  contents s = [] -> reread item s = Throw IndexError.
Proof.
  destruct s as [c u rl fn ln]. cbn. intros ->.
  unfold reread, mbind, M_bind, bind, seek0, listcomp.
  cbn [contents reader_line_num dr_fieldnames dr_line_num unread length].
  rewrite comprehension_S. by destruct ln, fn.
Qed.

End Passes.

Section Outcomes.
Import Writer Run Reader.
Context {B : Backend}.
Variable float_repr : Q -> string.

Lemma stepping_loop_raised (fuel : nat) (v v' : Vars B) (e : exn) :
  stepping_loop fuel v = Raised e v' -> e = ZeroDivisionError.
Proof.
  revert v. induction fuel as [|fuel IH]; intros v; cbn.
  - by destruct (Qltb (tnow v) tfinal).
  - destruct (Qltb (tnow v) tfinal); [|done].
    destruct (loop_body v) as [w|e' w] eqn:Hb; [apply IH|].
    intros [= <- <-]. by apply raise_keeps_outfile in Hb as [_ ->].
Qed.

Lemma selected_not_reserved (item : string) :
  item ∈ selectspecies -> item ∉ ["time"; "T"; "tres"]%string.
Proof.
  intros Hin Hres. unfold selectspecies in Hin.
  repeat (apply elem_of_cons in Hin as [->|Hin];
          [by repeat (apply elem_of_cons in Hres as [Hres|Hres]; [done|]);
              apply elem_of_nil in Hres|]).
  by apply elem_of_nil in Hin.
Qed.

Lemma selected_in_header (item : string) :
  item ∈ selectspecies -> item ∈ fieldnames B <-> item ∈ species_names B.
Proof.
  intros Hin. unfold fieldnames. rewrite elem_of_app.
  pose proof (selected_not_reserved item Hin). tauto.
Qed.

(** X10. When the mechanism lacks one of the six selected species, a run that
    finished its loop ends in the read-back with [KeyError] for the first
    species it lacks, whatever the table holds. *)
Theorem missing_species_raises (fuel : nat) (s0 : sim_state B) (v : Vars B)
    (pre post : list string) (item : string) :
  write_phase B fuel s0 = Finished v ->
  selectspecies = pre ++ item :: post ->
  Forall (fun item => item ∈ species_names B) pre ->
  item ∉ species_names B ->
  program B float_repr fuel s0 = Throw (KeyError item).
Proof.
  intros Hrun Hsel Hpre Hitem.
  destruct (outfile_rows fuel s0) as (rows & Hf & Hall).
  rewrite Hrun in Hf. cbn [final_vars] in Hf.
  unfold program. rewrite Hrun, Hf, csv_text_header.
  apply (read_phase_missing _ _ pre post item); [| |done| | |].
  - apply elem_of_app. left. apply elem_of_cons. by left.
  - apply elem_of_app. left. apply elem_of_cons. right. apply elem_of_cons. by left.
  - eapply Forall_impl; [exact Hpre|]. intros x Hx. apply elem_of_app. by right.
  - rewrite selected_in_header; [done|]. rewrite Hsel. apply elem_of_app. right.
    apply elem_of_cons. by left.
  - by eapply text_rows_nonblank.
Qed.

(** X11. The script raises nothing but [ZeroDivisionError], from the loop, and
    [KeyError] for a selected species the mechanism lacks, from the
    read-back; in particular never [IndexError] or [TypeError]. *)
Theorem program_exceptions (fuel : nat) (s0 : sim_state B) (e : exn) :
  program B float_repr fuel s0 = Throw e ->
  e = ZeroDivisionError
  \/ exists item, e = KeyError item
                  /\ item ∈ selectspecies /\ item ∉ species_names B.
Proof.
  unfold program. destruct (write_phase B fuel s0) as [v|e' v|v] eqn:Hrun.
  - destruct (outfile_rows fuel s0) as (rows & Hf & Hall).
    rewrite Hrun in Hf. cbn [final_vars] in Hf. rewrite Hf, csv_text_header.
    assert (Htime : "time"%string ∈ fieldnames B).
    { apply elem_of_app. left. apply elem_of_cons. by left. }
    assert (HT : "T"%string ∈ fieldnames B).
    { apply elem_of_app. left. apply elem_of_cons. right. apply elem_of_cons. by left. }
    pose proof (text_rows_nonblank float_repr s0 rows Hall) as Hnb.
    destruct (first_missing (fieldnames B) selectspecies)
      as [Hsel|(pre & item & post & Hsel & Hpre & Hitem)].
    + destruct (read_phase_succeeds _ _ Htime HT Hsel Hnb) as (res & s' & ->).
      discriminate.
    + rewrite (read_phase_missing _ _ pre post item Htime HT Hsel Hpre Hitem Hnb).
      intros [= <-]. right. exists item. split; [done|].
      assert (Hin : item ∈ selectspecies).
      { rewrite Hsel. apply elem_of_app. right. apply elem_of_cons. by left. }
      split; [done|]. by rewrite <- selected_in_header.
  - intros [= <-]. left. by eapply stepping_loop_raised.
  - discriminate.
Qed.

(** X12. After a run that finished, in a mechanism with no species called [time]
    or [T], the time series and the temperature series read back are, data
    row by data row, the texts written for the time and the temperature of
    the step of that row. *)
Theorem time_and_T_round_trip (fuel : nat) (s0 : sim_state B) (v : Vars B) :
  write_phase B fuel s0 = Finished v ->
  "time"%string ∉ species_names B ->
  "T"%string ∉ species_names B ->
  exists column0 s1 columnT s2,
    listcomp "time" (open_reader (csv_text float_repr (outfile v))) = Ok column0 s1
    /\ reread "T" s1 = Ok columnT s2
    /\ forall n r, data_rows (outfile v) !! n = Some r ->
         exists k, r = row_at s0 k
           /\ column0 !! n
              = Some (Some (cell_text float_repr (PyFloat (step_time s0 k))))
           /\ columnT !! n
              = Some (Some (cell_text float_repr (PyFloat (T_at s0 k)))).
Proof.
  intros Hrun Htime HT.
  destruct (outfile_rows fuel s0) as (rows & Hf & Hall).
  rewrite Hrun in Hf. cbn [final_vars] in Hf. rewrite Hf, csv_text_header.
  cbn [data_rows tail].
  pose proof (text_rows_nonblank float_repr s0 rows Hall) as Hnb.
  assert (Hl0 : "time"%string ∉ drop 1 (fieldnames B)).
  { cbn. intros Hin. repeat (apply elem_of_cons in Hin as [Hin|Hin]; [done|]). done. }
  assert (Hl1 : "T"%string ∉ drop 2 (fieldnames B)).
  { cbn. intros Hin. apply elem_of_cons in Hin as [Hin|Hin]; done. }
  destruct (first_pass (fieldnames B) _ "time" 0 eq_refl Hl0 Hnb) as (s1 & Hp1 & Hs1).
  destruct (later_pass (fieldnames B) _ "T" 1 s1 eq_refl Hl1 Hnb Hs1)
    as (_ & s2 & _ & Hp2 & _).
  do 4 eexists. split; [exact Hp1|]. split; [exact Hp2|].
  intros n r Hr. rewrite Forall_lookup in Hall. destruct (Hall n r Hr) as [k ->].
  exists k. split; [done|].
  rewrite !lookup_map, Hr. cbn [fmap option_fmap option_map]. by split.
Qed.

End Outcomes.

(* ------------------------------------------------------------------ *)
(** ** The feed rates *)
(* ------------------------------------------------------------------ *)

Section FeedRates.
Import Feeds.
Local Open Scope Q_scope.

(** X15. Whatever the molecular weights the library reports, the two controllers
    feed 7.52 moles of the oxidizer stream for every mole of fuel. *)
Theorem feed_molar_ratio (air_mw fuel_mw : Q) :
  ~ air_mw == 0 -> ~ fuel_mw == 0 ->
  air_mdot air_mw / air_mw == 7.52 * (fuel_mdot fuel_mw / fuel_mw).
Proof.
  intros Ha Hf. unfold air_mdot, fuel_mdot, factor, equiv_ratio. field. by split.
Qed.

End FeedRates.

(* ------------------------------------------------------------------ *)
(** ** The further properties on concrete inputs *)
(* ------------------------------------------------------------------ *)

Section MoreTraces.
Import Writer Run Reader Scripted.

Lemma igniter_falls_off_witness :
  (Igniter.igniter_mdot 1 < Igniter.igniter_mdot 0.4)%R.
Proof.
  apply (igniter_falls_off 0.4 1). unfold Igniter.t0.
  rewrite (Rabs_pos_eq (1 - 0.4)) by lra.
  replace (0.4 - 0.4)%R with 0%R by lra. rewrite Rabs_R0. lra.
Defined.

Lemma igniter_vanishes_witness :
  exists M : R,
    forall t : R, (M < Rabs (t - Igniter.t0))%R -> (Igniter.igniter_mdot t < 1)%R.
Proof. apply (igniter_vanishes 1). lra. Defined.


Lemma finished_run_has_rows_witness :
  (tfinal <= tnow finished_short_last)%Q
  /\ exists r t, last (data_rows (outfile finished_short_last)) = Some r
                 /\ row_time r = Some t
                 /\ (tnow finished_short_last - 2e-2 <= t)%Q.
Proof.
  apply (finished_run_has_rows (B := B_short_last) 3 O finished_short_last).
  reflexivity.
Defined.

Lemma division_ends_run_witness :
  exists v,
    write_phase B_zero_flow 2 O = Raised ZeroDivisionError v
    /\ outfile v = outfile before_zero_flow
    /\ program B_zero_flow show_Q 5 O = Throw ZeroDivisionError.
Proof.
  destruct (division_ends_run (B := B_zero_flow) O 2) as (v & Hrun & _ & Hfile & Hprog).
  - lia.
  - intros k Hk. assert (Hcases : k = 0%nat \/ k = 1%nat) by lia.
    destruct Hcases as [-> | ->]; reflexivity.
  - intros k Hk. assert (k = 1%nat) as -> by lia. discriminate.
  - reflexivity.
  - exists v. split; [apply Hrun; lia|]. split; [exact Hfile|]. apply Hprog. lia.
Defined.

Lemma passes_agree_witness :
  exists (j : nat) (s1 : State),
    listcomp "b" (open_reader [["a"; "b"; "b"]; ["1"; "2"; "3"]; ["4"; "5"]])
    = Ok (map (fun r : list string => r !! j) [["1"; "2"; "3"]; ["4"; "5"]]) s1
    /\ j = 2%nat.
Proof.
  destruct (passes_agree ["a"; "b"; "b"] [["1"; "2"; "3"]; ["4"; "5"]] "b")
    as (j & s1 & Hj & _ & Hp & _).
  - apply elem_of_cons. right. apply elem_of_cons. by left.
  - repeat constructor; discriminate.
  - exists j, s1. split; [exact Hp|].
    destruct j as [|[|[|j]]]; [discriminate | | reflexivity | discriminate].
    vm_compute in Hp. discriminate.
Defined.

Lemma empty_file_reread_witness :
  reread "T" (open_reader []) = Throw IndexError.
Proof. apply (empty_file_reread "T" (open_reader [])). reflexivity. Defined.

Lemma missing_species_raises_witness :
  program B_five show_Q 3 O = Throw (KeyError "CO").
Proof.
  apply (missing_species_raises (B := B_five) show_Q 3 O
           (final_vars (write_phase B_five 3 O)) five [] "CO").
  - reflexivity.
  - reflexivity.
  - repeat constructor.
  - intros Hin. repeat (apply elem_of_cons in Hin as [Hin|Hin]; [discriminate|]).
    by apply elem_of_nil in Hin.
Defined.

Lemma program_exceptions_witness :
  ZeroDivisionError = ZeroDivisionError
  \/ exists item, ZeroDivisionError = KeyError item
                  /\ item ∈ selectspecies /\ item ∉ species_names B_zero_flow.
Proof.
  apply (program_exceptions (B := B_zero_flow) show_Q 3 O ZeroDivisionError).
  reflexivity.
Defined.

Lemma time_and_T_round_trip_witness :
  exists column0 s1 columnT s2,
    listcomp "time" (open_reader (csv_text show_Q (outfile finished_short_last)))
    = Ok column0 s1
    /\ reread "T" s1 = Ok columnT s2
    /\ column0 !! 1%nat = Some (Some (show_Q 5.99))
    /\ columnT !! 1%nat = Some (Some (show_Q 2500)).
Proof.
  destruct (time_and_T_round_trip (B := B_short_last) show_Q 3 O finished_short_last)
    as (column0 & s1 & columnT & s2 & Hp1 & Hp2 & Hcells).
  - reflexivity.
  - intros Hin. repeat (apply elem_of_cons in Hin as [Hin|Hin]; [discriminate|]).
    by apply elem_of_nil in Hin.
  - intros Hin. repeat (apply elem_of_cons in Hin as [Hin|Hin]; [discriminate|]).
    by apply elem_of_nil in Hin.
  - exists column0, s1, columnT, s2. split; [exact Hp1|]. split; [exact Hp2|].
    destruct (Hcells 1%nat _ eq_refl) as (k & Hk & H0 & HT).
    assert (Hk2 : k = 2%nat).
    { destruct k as [|[|[|k]]]; [discriminate | discriminate | reflexivity |].
      exfalso. apply (f_equal row_time) in Hk. cbn in Hk.
      injection Hk as Hk. revert Hk. unfold step_time. cbn [sim_after].
      cbn. unfold trace_short_last, replay.
      destruct k as [|k]; [discriminate|]. destruct k; discriminate. }
    subst k. split; [exact H0 | exact HT].
Defined.

Lemma feed_molar_ratio_witness :
  (Feeds.air_mdot 32 / 32 == 7.52 * (Feeds.fuel_mdot 16 / 16))%Q.
Proof. apply (feed_molar_ratio 32 16); discriminate. Defined.

End MoreTraces.
